(** * Verification of controllers/utils/utils.go

    Shallow embedding of the reconciliation helpers of the IPFS operator:
    [CreateOrPatchTrackedObjects], [IPFSContainerResources], the random
    secret generators and [GenerateIdentity]. *)

From Stdlib Require Import ZArith Lia Ascii.
From stdpp Require Import base gmap strings list.

Open Scope Z_scope.

(* ------------------------------------------------------------------ *)
(** ** Go [int64] arithmetic *)

Module Int64.

Definition modulus : Z := 2 ^ 64.
Definition min_signed : Z := - 2 ^ 63.
Definition max_signed : Z := 2 ^ 63 - 1.

(** Two's complement wrap-around of a mathematical integer. *)
Definition wrap (z : Z) : Z := (z + 2 ^ 63) mod modulus - 2 ^ 63.

Definition in_range (z : Z) : Prop := min_signed <= z <= max_signed.

(** Go's [/] on int64: truncating division, wrapped (only MinInt64 / -1
    actually overflows). *)
Definition div (a b : Z) : Z := wrap (Z.quot a b).
Definition mul (a b : Z) : Z := wrap (a * b).
Definition add (a b : Z) : Z := wrap (a + b).

End Int64.

(* ------------------------------------------------------------------ *)
(** ** [resource.Quantity] (apimachinery) *)

(** [resource.NewScaledQuantity(value, scale)] builds an [int64Amount]
    with the given value and decimal scale: its amount is
    [value * 10 ^ scale]. *)
Record Quantity := mkQuantity { q_value : Z; q_scale : Z }.

Definition Milli : Z := -3.
Definition Giga : Z := 9.

Definition NewScaledQuantity (value scale : Z) : Quantity :=
  mkQuantity value scale.

(** [Quantity.Cmp]: compare the exact amounts, bringing both to the
    smaller of the two scales. *)
Definition qty_le (a b : Quantity) : Prop :=
  let m := Z.min (q_scale a) (q_scale b) in
  q_value a * 10 ^ (q_scale a - m) <= q_value b * 10 ^ (q_scale b - m).

(* ------------------------------------------------------------------ *)
(** ** [corev1.ResourceRequirements] *)

Definition ResourceMemory : string := "memory".
Definition ResourceCPU : string := "cpu".

Record ResourceRequirements := mkResourceRequirements {
  Requests : gmap string Quantity;
  Limits : gmap string Quantity
}.

(** [int64(units.Tebibyte)] from alecthomas/units. *)
Definition Tebibyte : Z := 2 ^ 40.

(** [IPFSContainerResources], line by line. *)
Definition IPFSContainerResources (ipfsStorageBytes : Z) : ResourceRequirements :=
  let ipfsStorageTB := Int64.div ipfsStorageBytes Tebibyte in
  let ipfsMilliCoresMin := Int64.add 250 (Int64.mul 500 ipfsStorageTB) in
  let ipfsRAMGBMin0 := ipfsStorageTB in
  let ipfsRAMGBMin := if Z.ltb ipfsRAMGBMin0 2 then 1 else ipfsRAMGBMin0 in
  let ipfsRAMMinQuantity := NewScaledQuantity ipfsRAMGBMin Giga in
  let ipfsRAMMaxQuantity := NewScaledQuantity (Int64.mul 2 ipfsRAMGBMin) Giga in
  let ipfsCoresMinQuantity := NewScaledQuantity ipfsMilliCoresMin Milli in
  let ipfsCoresMaxQuantity := NewScaledQuantity (Int64.mul 2 ipfsMilliCoresMin) Milli in
  {| Requests := <[ResourceCPU := ipfsCoresMinQuantity]>
                   (<[ResourceMemory := ipfsRAMMinQuantity]> ∅);
     Limits := <[ResourceCPU := ipfsCoresMaxQuantity]>
                 (<[ResourceMemory := ipfsRAMMaxQuantity]> ∅) |}.

(** The four components of the result. *)
Definition cpu_request (s : Z) : option Quantity :=
  Requests (IPFSContainerResources s) !! ResourceCPU.
Definition cpu_limit (s : Z) : option Quantity :=
  Limits (IPFSContainerResources s) !! ResourceCPU.
Definition mem_request (s : Z) : option Quantity :=
  Requests (IPFSContainerResources s) !! ResourceMemory.
Definition mem_limit (s : Z) : option Quantity :=
  Limits (IPFSContainerResources s) !! ResourceMemory.

(** Componentwise order on optional quantities (a missing entry only
    compares with a missing entry). *)
Definition opt_qty_le (a b : option Quantity) : Prop :=
  match a, b with
  | Some x, Some y => qty_le x y
  | None, None => True
  | _, _ => False
  end.

(* ------------------------------------------------------------------ *)
(** ** Go errors *)

(** An [error] value: a plain error ([errors.New]) or the [*fmt.wrapError]
    built by [fmt.Errorf] with a [%w] verb, which keeps the formatted
    message and the wrapped error. *)
Inductive goerror :=
  | ErrString (msg : string)
  | ErrWrap (msg : string) (inner : goerror).

Definition Error (e : goerror) : string :=
  match e with ErrString m => m | ErrWrap m _ => m end.

Definition Unwrap (e : goerror) : option goerror :=
  match e with ErrString _ => None | ErrWrap _ i => Some i end.

(** [fmt.Errorf(prefix ++ "%w", err)]. *)
Definition Errorf_w (prefix : string) (err : goerror) : goerror :=
  ErrWrap (prefix +:+ Error err) err.

(* ------------------------------------------------------------------ *)
(** ** [CreateOrPatchTrackedObjects] *)

(** [controllerutil.OperationResult]. *)
Inductive OperationResult :=
  | OperationResultNone
  | OperationResultCreated
  | OperationResultUpdated
  | OperationResultUpdatedStatus
  | OperationResultUpdatedStatusOnly.

(** One [log.Error] or [log.Info] record of the loop. *)
Inductive LogRecord :=
  | LogError (err : goerror) (name kind : string) (result : OperationResult)
  | LogInfo (name kind : string) (result : OperationResult).

(** One call of [controllerutil.CreateOrPatch]: the object it was made on
    and what it returned. *)
Record Call := mkCall {
  call_obj : nat;
  call_result : OperationResult;
  call_err : option goerror
}.

Definition has_err (c : Call) : bool :=
  match call_err c with Some _ => true | None => false end.

Definition is_error_log (r : LogRecord) : bool :=
  match r with LogError _ _ _ _ => true | LogInfo _ _ _ => false end.

Section TrackedObjects.

(** Tracked objects are [client.Object] pointers, identified here by a
    number; [Mut] is the type of the [controllerutil.MutateFn] values and
    [Val] the state the cluster holds for one object. *)
Context {Mut Val : Type}.
Context (GetName GetKind : nat -> string).

(** [controllerutil.CreateOrPatch(ctx, client, obj, mut)]: it gets the
    object [obj] from the cluster, runs [mut] on it and patches it back,
    so it reads and writes the cluster's entry for [obj] only. *)
Context (CreateOrPatch : nat -> Mut -> Val -> OperationResult * option goerror * Val).

Record LoopState := mkLoopState {
  requeue : bool;
  cluster : nat -> Val;
  calls : list Call;
  logs : list LogRecord
}.

(** One iteration of [for obj, mut := range trackedObjects]. *)
Definition loop_body (s : LoopState) (entry : nat * Mut) : LoopState :=
  let '(obj, mut) := entry in
  let kind := GetKind obj in
  let name := GetName obj in
  let '(result, err, v) := CreateOrPatch obj mut (cluster s obj) in
  let cluster' := fun x => if decide (x = obj) then v else cluster s x in
  let calls' := calls s ++ [mkCall obj result err] in
  match err with
  | Some e => mkLoopState true cluster' calls' (logs s ++ [LogError e name kind result])
  | None => mkLoopState (requeue s) cluster' calls' (logs s ++ [LogInfo name kind result])
  end.

(** Go's [range] over a map visits every entry exactly once in an order
    the runtime chooses afresh for each loop: any ordering of the
    entries. *)
Definition range_order (trackedObjects : gmap nat Mut) (order : list (nat * Mut)) : Prop :=
  order ≡ₚ map_to_list trackedObjects.

(** The loop run along one iteration order, from the cluster state [c0]. *)
Definition run_loop (order : list (nat * Mut)) (c0 : nat -> Val) : LoopState :=
  fold_left loop_body order (mkLoopState false c0 [] []).

(** [CreateOrPatchTrackedObjects] along a given iteration order: the
    final loop state, whose [requeue] is the returned boolean. *)
Definition CreateOrPatchTrackedObjects_along (order : list (nat * Mut)) (c0 : nat -> Val) : bool :=
  requeue (run_loop order c0).

(** A run of [CreateOrPatchTrackedObjects trackedObjects] from [c0]. *)
Definition CreateOrPatchTrackedObjects_run (trackedObjects : gmap nat Mut) (c0 : nat -> Val)
    (final : LoopState) : Prop :=
  exists order, range_order trackedObjects order /\ final = run_loop order c0.

(** The call the loop makes on [entry] when the cluster is [c]. *)
Definition call_of (c : nat -> Val) (entry : nat * Mut) : Call :=
  let '(obj, mut) := entry in
  let '(result, err, _) := CreateOrPatch obj mut (c obj) in
  mkCall obj result err.

(** The log record the loop writes for a call. *)
Definition log_of (c : Call) : LogRecord :=
  match call_err c with
  | Some e => LogError e (GetName (call_obj c)) (GetKind (call_obj c)) (call_result c)
  | None => LogInfo (GetName (call_obj c)) (GetKind (call_obj c)) (call_result c)
  end.

(** The loop invariant: the flag is set exactly when some call so far
    failed, and there is one log record per call. *)
Definition loop_inv (s : LoopState) : Prop :=
  requeue s = existsb has_err (calls s) /\ logs s = map log_of (calls s).

End TrackedObjects.

(* ------------------------------------------------------------------ *)
(** ** Bytes, [encoding/hex] and [encoding/base64] *)

Definition byteZ (b : Byte.byte) : Z := Z.of_N (Byte.to_N b).

Definition hextable : string := "0123456789abcdef".

Definition hex_char (n : Z) : Ascii.ascii :=
  match String.get (Z.to_nat n) hextable with Some c => c | None => Ascii.zero end.

(** [hex.EncodeToString]: [hextable[v>>4]], [hextable[v&0x0f]] per byte. *)
Fixpoint EncodeToString (src : list Byte.byte) : string :=
  match src with
  | [] => EmptyString
  | v :: rest =>
      String (hex_char (Z.shiftr (byteZ v) 4))
        (String (hex_char (Z.land (byteZ v) 15)) (EncodeToString rest))
  end.

(** [hex.fromHexChar]. *)
Definition fromHexChar (c : Ascii.ascii) : option Z :=
  let n := Z.of_nat (Ascii.nat_of_ascii c) in
  if (48 <=? n) && (n <=? 57) then Some (n - 48)
  else if (97 <=? n) && (n <=? 102) then Some (n - 87)
  else if (65 <=? n) && (n <=? 70) then Some (n - 55)
  else None.

(** [hex.DecodeString], with its errors collapsed to [None]. *)
Fixpoint DecodeString (s : string) : option (list Byte.byte) :=
  match s with
  | EmptyString => Some []
  | String _ EmptyString => None
  | String p (String q rest) =>
      match fromHexChar p, fromHexChar q, DecodeString rest with
      | Some a, Some b, Some l =>
          match Byte.of_N (Z.to_N (Z.lor (Z.shiftl a 4) b)) with
          | Some v => Some (v :: l)
          | None => None
          end
      | _, _, _ => None
      end
  end.

Definition is_lower_hex (c : Ascii.ascii) : bool :=
  existsb (Ascii.eqb c) (String.list_ascii_of_string hextable).

Definition all_lower_hex (s : string) : bool :=
  forallb is_lower_hex (String.list_ascii_of_string s).

Definition newline : Ascii.ascii := "010"%char.

Definition no_newline (s : string) : bool :=
  forallb (fun c => negb (Ascii.eqb c newline)) (String.list_ascii_of_string s).

(** The lines of a text: its pieces between newline characters. *)
Fixpoint lines (s : string) : list string :=
  match s with
  | EmptyString => [EmptyString]
  | String c rest =>
      if Ascii.eqb c newline then EmptyString :: lines rest
      else match lines rest with
           | [] => [String c EmptyString]
           | l :: ls => String c l :: ls
           end
  end.

Definition b64alphabet : string :=
  "ABCDEFGHIJKLMNOPQRSTUVWXYZabcdefghijklmnopqrstuvwxyz0123456789+/".

Definition b64_char (n : Z) : Ascii.ascii :=
  match String.get (Z.to_nat (Z.land n 63)) b64alphabet with
  | Some c => c
  | None => "="%char
  end.

(** [base64.StdEncoding.EncodeToString]: three bytes to four characters,
    the last group padded with [=]. *)
Fixpoint b64_EncodeToString (src : list Byte.byte) : string :=
  match src with
  | a :: b :: c :: rest =>
      let val := Z.lor (Z.shiftl (byteZ a) 16) (Z.lor (Z.shiftl (byteZ b) 8) (byteZ c)) in
      String (b64_char (Z.shiftr val 18)) (String (b64_char (Z.shiftr val 12))
        (String (b64_char (Z.shiftr val 6)) (String (b64_char val)
          (b64_EncodeToString rest))))
  | [a; b] =>
      let val := Z.lor (Z.shiftl (byteZ a) 16) (Z.shiftl (byteZ b) 8) in
      String (b64_char (Z.shiftr val 18)) (String (b64_char (Z.shiftr val 12))
        (String (b64_char (Z.shiftr val 6)) (String "="%char EmptyString)))
  | [a] =>
      let val := Z.shiftl (byteZ a) 16 in
      String (b64_char (Z.shiftr val 18)) (String (b64_char (Z.shiftr val 12))
        (String "="%char (String "="%char EmptyString)))
  | [] => EmptyString
  end.

(** Position of a character in a string, from index [i]. *)
Fixpoint index_of (c : Ascii.ascii) (s : string) (i : Z) : option Z :=
  match s with
  | EmptyString => None
  | String d rest => if Ascii.eqb c d then Some i else index_of c rest (i + 1)
  end.

(** [base64.StdEncoding]'s [decodeMap]: the 6-bit value of a character. *)
Definition b64_decodeMap (c : Ascii.ascii) : option Z := index_of c b64alphabet 0.

(** Go's conversion [byte(x)]: the low 8 bits. *)
Definition to_byte (x : Z) : Byte.byte :=
  match Byte.of_N (Z.to_N (Z.land x 255)) with Some b => b | None => Byte.x00 end.

Definition pad : Ascii.ascii := "="%char.

(** [base64.StdEncoding.DecodeString] on unbroken input (no line breaks),
    with its errors collapsed to [None]: four characters to three bytes, a
    final quantum padded with one or two [=] giving two or one bytes. *)
Fixpoint b64_DecodeString (s : string) : option (list Byte.byte) :=
  match s with
  | EmptyString => Some []
  | String c0 (String c1 (String c2 (String c3 rest))) =>
      match b64_decodeMap c0, b64_decodeMap c1 with
      | Some i0, Some i1 =>
          if Ascii.eqb c2 pad then
            if Ascii.eqb c3 pad && String.eqb rest EmptyString then
              let val := Z.lor (Z.shiftl i0 18) (Z.shiftl i1 12) in
              Some [to_byte (Z.shiftr val 16)]
            else None
          else
            match b64_decodeMap c2 with
            | None => None
            | Some i2 =>
                if Ascii.eqb c3 pad then
                  if String.eqb rest EmptyString then
                    let val := Z.lor (Z.shiftl i0 18) (Z.lor (Z.shiftl i1 12) (Z.shiftl i2 6)) in
                    Some [to_byte (Z.shiftr val 16); to_byte (Z.shiftr val 8)]
                  else None
                else
                  match b64_decodeMap c3 with
                  | None => None
                  | Some i3 =>
                      let val := Z.lor (Z.shiftl i0 18)
                                   (Z.lor (Z.shiftl i1 12) (Z.lor (Z.shiftl i2 6) i3)) in
                      match b64_DecodeString rest with
                      | Some l => Some (to_byte (Z.shiftr val 16) :: to_byte (Z.shiftr val 8)
                                          :: to_byte val :: l)
                      | None => None
                      end
                  end
            end
      | _, _ => None
      end
  | _ => None
  end.

(** Characters of the standard base64 alphabet or the padding. *)
Definition is_b64_char (c : Ascii.ascii) : bool :=
  Ascii.eqb c pad || existsb (Ascii.eqb c) (String.list_ascii_of_string b64alphabet).

Definition all_b64 (s : string) : bool :=
  forallb is_b64_char (String.list_ascii_of_string s).

(* ------------------------------------------------------------------ *)
(** ** The secure random source ([crypto/rand]) *)

(** What one [rand.Read] call gets from the operating system: a fill of
    the buffer (byte [i] of the buffer is [fill i]) or an error. *)
Inductive RandReply :=
  | RandOk (fill : nat -> Byte.byte)
  | RandErr (err : goerror).

(** The process-wide source: the reply of each successive read, and the
    number of reads made so far. *)
Record RandSource := mkRandSource {
  replies : nat -> RandReply;
  reads : nat
}.

(** [rand.Read(buf)] on a buffer of length [len]. *)
Definition rand_Read (len : nat) (src : RandSource) : list Byte.byte * option goerror * RandSource :=
  let src' := mkRandSource (replies src) (S (reads src)) in
  match replies src (reads src) with
  | RandOk fill => (map fill (seq 0 len), None, src')
  | RandErr e => (repeat Byte.x00 len, Some e, src')
  end.

(** [randomKey]: a nil slice is the empty list. *)
Definition randomKey (len : nat) (src : RandSource) : list Byte.byte * option goerror * RandSource :=
  let '(buf, err, src') := rand_Read len src in
  match err with
  | Some e => ([], Some e, src')
  | None => (buf, None, src')
  end.

Definition NewClusterSecret (src : RandSource) : string * option goerror * RandSource :=
  let '(buf, err, src') := randomKey 32 src in
  match err with
  | Some e => (EmptyString, Some e, src')
  | None => (EncodeToString buf, None, src')
  end.

Definition swarmPrefix : string := "/key/swarm/psk/1.0.0".
Definition multiBase : string := "/base16/".

(** [fmt.Sprintf("%s\n%s\n%s", a, b, c)]. *)
Definition Sprintf_3lines (a b c : string) : string :=
  a +:+ String newline (b +:+ String newline c).

Definition NewSwarmKey (src : RandSource) : string * option goerror * RandSource :=
  let '(buf, err, src') := randomKey 32 src in
  match err with
  | Some e => (EmptyString, Some e, src')
  | None =>
      let key := EncodeToString buf in
      (Sprintf_3lines swarmPrefix multiBase key, None, src')
  end.

(* ------------------------------------------------------------------ *)
(** ** Node identities ([NewKey], [GenerateIdentity]) *)

(** [ci.KeyType] of go-libp2p. *)
Inductive KeyType := RSA | Ed25519 | Secp256k1 | ECDSA.

Section Identity.

(** Key values of go-libp2p's crypto package; a [ci.PrivKey] interface
    value may be nil, written [None]. A [peer.ID] is a string. *)
Context {PrivKey PubKey : Type}.

(** [ci.GenerateKeyPair(typ, bits)] for the draw of randomness at hand. *)
Context (GenerateKeyPair : KeyType -> Z -> (PrivKey * PubKey) + goerror).
(** [peer.IDFromPublicKey]. *)
Context (IDFromPublicKey : PubKey -> string + goerror).
(** [ci.MarshalPrivateKey]. *)
Context (MarshalPrivateKey : option PrivKey -> list Byte.byte + goerror).

Definition NewKey : option PrivKey * string * option goerror :=
  let edDSAKeyLen := 4096 in
  match GenerateKeyPair Ed25519 edDSAKeyLen with
  | inr err => (None, EmptyString, Some err)
  | inl (priv, pub) =>
      match IDFromPublicKey pub with
      | inr err => (None, EmptyString, Some err)
      | inl peerid => (Some priv, peerid, None)
      end
  end.

(** Returns [(peerid, privStr, err)]. *)
Definition GenerateIdentity : string * string * option goerror :=
  let '(privateKey, peerid, err) := NewKey in
  match err with
  | Some e => (EmptyString, EmptyString, Some (Errorf_w "cannot generate new key: " e))
  | None =>
      match MarshalPrivateKey privateKey with
      | inr e => (EmptyString, EmptyString,
                  Some (Errorf_w "cannot get bytes from private key: " e))
      | inl privBytes => (peerid, b64_EncodeToString privBytes, None)
      end
  end.

End Identity.

(* ================================================================== *)
(** * Properties *)

(* ------------------------------------------------------------------ *)
(** ** Sizing *)

Lemma wrap_id (z : Z) : Int64.in_range z -> Int64.wrap z = z.
Proof.
  unfold Int64.in_range, Int64.wrap, Int64.modulus, Int64.min_signed, Int64.max_signed.
  intros [H1 H2]. rewrite Z.mod_small; lia.
Qed.

Lemma storageTB_bounds (s : Z) :
  Int64.in_range s -> - 2 ^ 23 <= Z.quot s Tebibyte <= 2 ^ 23.
Proof.
  unfold Int64.in_range, Int64.min_signed, Int64.max_signed, Tebibyte. intros Hs.
  pose proof (Z.quot_rem' s (2 ^ 40)) as Hqr.
  pose proof (Z.rem_bound_abs s (2 ^ 40) ltac:(lia)) as Hr.
  simpl in *. lia.
Qed.

Lemma storageTB_eq (s : Z) :
  Int64.in_range s -> Int64.div s Tebibyte = Z.quot s Tebibyte.
Proof.
  intros Hs. pose proof (storageTB_bounds s Hs). unfold Int64.div.
  apply wrap_id. unfold Int64.in_range, Int64.min_signed, Int64.max_signed. lia.
Qed.

(** [IPFSContainerResources] with the int64 wrap-around shown not to
    occur on any int64 input. *)
Lemma IPFSContainerResources_components (s : Z) :
  Int64.in_range s ->
  let tb := Z.quot s Tebibyte in
  let ram := if Z.ltb tb 2 then 1 else tb in
  cpu_request s = Some (mkQuantity (250 + 500 * tb) Milli) /\
  cpu_limit s = Some (mkQuantity (2 * (250 + 500 * tb)) Milli) /\
  mem_request s = Some (mkQuantity ram Giga) /\
  mem_limit s = Some (mkQuantity (2 * ram) Giga).
Proof.
  intros Hs tb ram. pose proof (storageTB_bounds s Hs) as Hb.
  unfold cpu_request, cpu_limit, mem_request, mem_limit, IPFSContainerResources.
  rewrite (storageTB_eq s Hs). fold tb. fold ram. cbn [Requests Limits].
  assert (Hram : 1 <= ram <= 2 ^ 23) by (subst ram; destruct (Z.ltb_spec tb 2); lia).
  unfold Int64.mul, Int64.add.
  rewrite (wrap_id (500 * tb)) by (unfold Int64.in_range, Int64.min_signed, Int64.max_signed; lia).
  rewrite (wrap_id (250 + 500 * tb)) by (unfold Int64.in_range, Int64.min_signed, Int64.max_signed; lia).
  rewrite (wrap_id (2 * (250 + 500 * tb))) by (unfold Int64.in_range, Int64.min_signed, Int64.max_signed; lia).
  rewrite (wrap_id (2 * ram)) by (unfold Int64.in_range, Int64.min_signed, Int64.max_signed; lia).
  unfold ResourceCPU, ResourceMemory, NewScaledQuantity.
  repeat split; simplify_map_eq; reflexivity.
Qed.

(** C2: for a non-negative int64 [storageBytes], with
    [storageTB = floor(storageBytes / 2^40)], the CPU request is
    [250 + 500 * storageTB] millicores, the CPU limit is twice the CPU
    request and the memory limit is twice the memory request. *)
Theorem IPFSContainerResources_cpu_and_limits (s : Z) :
  0 <= s <= Int64.max_signed ->
  let storageTB := s / 2 ^ 40 in
  cpu_request s = Some (mkQuantity (250 + 500 * storageTB) Milli) /\
  cpu_limit s = Some (mkQuantity (2 * (250 + 500 * storageTB)) Milli) /\
  exists ram, mem_request s = Some (mkQuantity ram Giga) /\
              mem_limit s = Some (mkQuantity (2 * ram) Giga).
Proof.
  intros Hs storageTB.
  assert (Hr : Int64.in_range s)
    by (unfold Int64.in_range, Int64.min_signed, Int64.max_signed in *; lia).
  destruct (IPFSContainerResources_components s Hr) as (H1 & H2 & H3 & H4).
  unfold Tebibyte in *. rewrite Z.quot_div_nonneg in H1, H2, H3, H4 by lia.
  fold storageTB in H1, H2, H3, H4.
  split; [exact H1|]. split; [exact H2|]. eexists. split; [exact H3 | exact H4].
Qed.

Lemma IPFSContainerResources_cpu_and_limits_witness :
  (0 <= 3 * 2 ^ 40 <= Int64.max_signed) /\
  (let storageTB := (3 * 2 ^ 40) / 2 ^ 40 in
   cpu_request (3 * 2 ^ 40) = Some (mkQuantity (250 + 500 * storageTB) Milli) /\
   cpu_limit (3 * 2 ^ 40) = Some (mkQuantity (2 * (250 + 500 * storageTB)) Milli) /\
   exists ram, mem_request (3 * 2 ^ 40) = Some (mkQuantity ram Giga) /\
               mem_limit (3 * 2 ^ 40) = Some (mkQuantity (2 * ram) Giga)).
Proof.
  split.
  - unfold Int64.max_signed. lia.
  - apply IPFSContainerResources_cpu_and_limits. unfold Int64.max_signed. lia.
Defined.

(** C3: for a non-negative int64 [storageBytes], the memory request is
    [ramGBMin] decimal gigabytes where [ramGBMin = storageTB], clamped to
    1 (not 2) when [storageTB < 2]; for 1 TiB the memory request is 1 GB
    and the CPU request 750 millicores. *)
Theorem IPFSContainerResources_ram_clamp (s : Z) :
  0 <= s <= Int64.max_signed ->
  let storageTB := s / 2 ^ 40 in
  mem_request s = Some (mkQuantity (if Z.ltb storageTB 2 then 1 else storageTB) Giga) /\
  (storageTB < 2 -> mem_request s = Some (mkQuantity 1 Giga)) /\
  (2 <= storageTB -> mem_request s = Some (mkQuantity storageTB Giga)) /\
  mem_request (2 ^ 40) = Some (mkQuantity 1 Giga) /\
  cpu_request (2 ^ 40) = Some (mkQuantity 750 Milli).
Proof.
  intros Hs storageTB.
  assert (Hr : Int64.in_range s)
    by (unfold Int64.in_range, Int64.min_signed, Int64.max_signed in *; lia).
  destruct (IPFSContainerResources_components s Hr) as (_ & _ & H3 & _).
  unfold Tebibyte in H3. rewrite Z.quot_div_nonneg in H3 by lia.
  fold storageTB in H3.
  split; [exact H3|]. split; [|split].
  - intros Hlt. rewrite H3. apply Z.ltb_lt in Hlt. rewrite Hlt. reflexivity.
  - intros Hge. rewrite H3. destruct (Z.ltb_spec storageTB 2); [lia | reflexivity].
  - split; reflexivity.
Qed.

Lemma IPFSContainerResources_ram_clamp_witness :
  (0 <= 2 ^ 40 <= Int64.max_signed) /\
  (let storageTB := 2 ^ 40 / 2 ^ 40 in
   mem_request (2 ^ 40) = Some (mkQuantity (if Z.ltb storageTB 2 then 1 else storageTB) Giga) /\
   (storageTB < 2 -> mem_request (2 ^ 40) = Some (mkQuantity 1 Giga)) /\
   (2 <= storageTB -> mem_request (2 ^ 40) = Some (mkQuantity storageTB Giga)) /\
   mem_request (2 ^ 40) = Some (mkQuantity 1 Giga) /\
   cpu_request (2 ^ 40) = Some (mkQuantity 750 Milli)).
Proof.
  split.
  - unfold Int64.max_signed. lia.
  - apply IPFSContainerResources_ram_clamp. unfold Int64.max_signed. lia.
Defined.

Lemma qty_le_same_scale (a b sc : Z) :
  a <= b -> qty_le (mkQuantity a sc) (mkQuantity b sc).
Proof. unfold qty_le. simpl. rewrite Z.min_id, Z.sub_diag. lia. Qed.

(** C4: for non-negative int64 sizes [s1 < s2], every component of
    [IPFSContainerResources s1] is at most the corresponding component of
    [IPFSContainerResources s2]. *)
Theorem IPFSContainerResources_monotone (s1 s2 : Z) :
  0 <= s1 -> s1 < s2 -> s2 <= Int64.max_signed ->
  opt_qty_le (cpu_request s1) (cpu_request s2) /\
  opt_qty_le (cpu_limit s1) (cpu_limit s2) /\
  opt_qty_le (mem_request s1) (mem_request s2) /\
  opt_qty_le (mem_limit s1) (mem_limit s2).
Proof.
  intros H0 Hlt Hmax.
  assert (R1 : Int64.in_range s1)
    by (unfold Int64.in_range, Int64.min_signed, Int64.max_signed in *; lia).
  assert (R2 : Int64.in_range s2)
    by (unfold Int64.in_range, Int64.min_signed, Int64.max_signed in *; lia).
  destruct (IPFSContainerResources_components s1 R1) as (A1 & A2 & A3 & A4).
  destruct (IPFSContainerResources_components s2 R2) as (B1 & B2 & B3 & B4).
  rewrite A1, A2, A3, A4, B1, B2, B3, B4. cbn [opt_qty_le].
  unfold Tebibyte. rewrite !Z.quot_div_nonneg by lia.
  assert (Hd : s1 / 2 ^ 40 <= s2 / 2 ^ 40) by (apply Z.div_le_mono; lia).
  set (t1 := s1 / 2 ^ 40) in *. set (t2 := s2 / 2 ^ 40) in *.
  assert (Hram : (if Z.ltb t1 2 then 1 else t1) <= (if Z.ltb t2 2 then 1 else t2))
    by (destruct (Z.ltb_spec t1 2), (Z.ltb_spec t2 2); lia).
  repeat split; apply qty_le_same_scale; lia.
Qed.

Lemma IPFSContainerResources_monotone_witness :
  (0 <= 2 ^ 40 /\ 2 ^ 40 < 5 * 2 ^ 40 /\ 5 * 2 ^ 40 <= Int64.max_signed) /\
  (opt_qty_le (cpu_request (2 ^ 40)) (cpu_request (5 * 2 ^ 40)) /\
   opt_qty_le (cpu_limit (2 ^ 40)) (cpu_limit (5 * 2 ^ 40)) /\
   opt_qty_le (mem_request (2 ^ 40)) (mem_request (5 * 2 ^ 40)) /\
   opt_qty_le (mem_limit (2 ^ 40)) (mem_limit (5 * 2 ^ 40))).
Proof.
  split.
  - unfold Int64.max_signed. lia.
  - apply IPFSContainerResources_monotone; unfold Int64.max_signed; lia.
Defined.

(** C10: [IPFSContainerResources] is defined on every int64 input,
    negative ones included, and whenever [storageTB < 2] (in particular
    for every negative input) the memory request is exactly 1 decimal
    gigabyte and the memory limit exactly 2. *)
Theorem IPFSContainerResources_small_or_negative (s : Z) :
  Int64.in_range s ->
  (exists c1 c2 m1 m2,
      cpu_request s = Some c1 /\ cpu_limit s = Some c2 /\
      mem_request s = Some m1 /\ mem_limit s = Some m2) /\
  (s < 0 -> Int64.div s Tebibyte < 2) /\
  (Int64.div s Tebibyte < 2 ->
     mem_request s = Some (mkQuantity 1 Giga) /\
     mem_limit s = Some (mkQuantity 2 Giga)).
Proof.
  intros Hs.
  destruct (IPFSContainerResources_components s Hs) as (H1 & H2 & H3 & H4).
  rewrite (storageTB_eq s Hs).
  split; [do 4 eexists; eauto|]. split.
  - intros Hneg. unfold Tebibyte.
    pose proof (Z.quot_rem' s (2 ^ 40)) as Hqr.
    pose proof (Z.rem_bound_abs s (2 ^ 40) ltac:(lia)) as Hr.
    pose proof (Z.rem_nonpos s (2 ^ 40) ltac:(lia)) as Hnp.
    simpl in *. lia.
  - intros Hlt. apply Z.ltb_lt in Hlt. rewrite Hlt in H3, H4. split; assumption.
Qed.

Lemma IPFSContainerResources_small_or_negative_witness :
  Int64.in_range (- 2 ^ 41) /\
  ((exists c1 c2 m1 m2,
      cpu_request (- 2 ^ 41) = Some c1 /\ cpu_limit (- 2 ^ 41) = Some c2 /\
      mem_request (- 2 ^ 41) = Some m1 /\ mem_limit (- 2 ^ 41) = Some m2) /\
   (- 2 ^ 41 < 0 -> Int64.div (- 2 ^ 41) Tebibyte < 2) /\
   (Int64.div (- 2 ^ 41) Tebibyte < 2 ->
      mem_request (- 2 ^ 41) = Some (mkQuantity 1 Giga) /\
      mem_limit (- 2 ^ 41) = Some (mkQuantity 2 Giga))) /\
  cpu_request (- 2 ^ 41) = Some (mkQuantity (-750) Milli).
Proof.
  assert (H : Int64.in_range (- 2 ^ 41))
    by (unfold Int64.in_range, Int64.min_signed, Int64.max_signed; lia).
  split; [exact H|]. split.
  - apply IPFSContainerResources_small_or_negative. exact H.
  - reflexivity.
Defined.

(* ------------------------------------------------------------------ *)
(** ** The tracked-object loop *)

Section LoopFacts.

Context {Mut Val : Type}.
Context (GetName GetKind : nat -> string).
Context (CreateOrPatch : nat -> Mut -> Val -> OperationResult * option goerror * Val).

Local Abbreviation body := (loop_body GetName GetKind CreateOrPatch).
Local Abbreviation run := (run_loop GetName GetKind CreateOrPatch).
Local Abbreviation inv := (loop_inv GetName GetKind).
Local Abbreviation callof := (call_of CreateOrPatch).

Lemma loop_body_inv (s : LoopState) (entry : nat * Mut) :
  inv s -> inv (body s entry).
Proof.
  destruct entry as [obj mut]. intros [Hr Hl]. unfold loop_body.
  destruct (CreateOrPatch obj mut (cluster s obj)) as [[result err] v].
  destruct err as [e|]; unfold loop_inv; simpl;
    rewrite existsb_app, map_app, <- Hr, <- Hl; simpl; split; try reflexivity.
  - rewrite orb_true_r. reflexivity.
  - rewrite orb_false_r. reflexivity.
Qed.

Lemma fold_inv (l : list (nat * Mut)) (s : LoopState) :
  inv s -> inv (fold_left body l s).
Proof.
  revert s. induction l as [|e l IH]; intros s Hs; simpl; [exact Hs|].
  apply IH, loop_body_inv, Hs.
Qed.

Lemma run_inv (order : list (nat * Mut)) (c0 : nat -> Val) : inv (run order c0).
Proof. apply fold_inv. split; reflexivity. Qed.

(** The cluster entries of objects other than the one just processed are
    left alone. *)
Lemma loop_body_cluster_other (s : LoopState) (obj x : nat) (mut : Mut) :
  x <> obj -> cluster (body s (obj, mut)) x = cluster s x.
Proof.
  intros Hne. unfold loop_body.
  destruct (CreateOrPatch obj mut (cluster s obj)) as [[result err] v].
  destruct err; simpl; destruct (decide (x = obj)); congruence.
Qed.

Lemma loop_body_calls (s : LoopState) (entry : nat * Mut) :
  calls (body s entry) = calls s ++ [callof (cluster s) entry].
Proof.
  destruct entry as [obj mut]. unfold loop_body, call_of.
  destruct (CreateOrPatch obj mut (cluster s obj)) as [[result err] v].
  destruct err; reflexivity.
Qed.

(** With distinct objects, every call sees the cluster entry of its object
    as it was before the loop. *)
Lemma fold_calls (l : list (nat * Mut)) (s : LoopState) :
  NoDup l.*1 ->
  calls (fold_left body l s) = calls s ++ map (callof (cluster s)) l.
Proof.
  revert s. induction l as [|[obj mut] l IH]; intros s Hnd; cbn [fold_left map].
  - rewrite app_nil_r. reflexivity.
  - apply NoDup_cons in Hnd as [Hnotin Hnd].
    rewrite (IH _ Hnd), loop_body_calls, <- app_assoc. f_equal. cbn [app]. f_equal.
    apply map_ext_in. intros [x mx] Hin. unfold call_of.
    rewrite loop_body_cluster_other; [reflexivity|].
    intros ->. apply Hnotin. apply list_elem_of_In.
    apply (in_map fst) in Hin. exact Hin.
Qed.

Lemma range_order_NoDup (m : gmap nat Mut) (order : list (nat * Mut)) :
  range_order m order -> NoDup order.*1.
Proof.
  unfold range_order. intros Hp. rewrite Hp. apply NoDup_fst_map_to_list.
Qed.

Lemma run_calls (m : gmap nat Mut) (order : list (nat * Mut)) (c0 : nat -> Val) :
  range_order m order -> calls (run order c0) = map (callof c0) order.
Proof.
  intros Hr. unfold run_loop. rewrite fold_calls by (eapply range_order_NoDup; eauto).
  reflexivity.
Qed.

End LoopFacts.

Lemma filter_calls_of {Mut Val : Type}
    (CreateOrPatch : nat -> Mut -> Val -> OperationResult * option goerror * Val)
    (c0 : nat -> Val) (order : list (nat * Mut)) (o : nat) (mu : Mut) :
  NoDup order.*1 -> (o, mu) ∈ order ->
  filter (fun c => call_obj c = o) (map (call_of CreateOrPatch c0) order)
  = [call_of CreateOrPatch c0 (o, mu)].
Proof.
  assert (Hobj : forall e, call_obj (call_of CreateOrPatch c0 e) = e.1).
  { intros [x mx]. unfold call_of. destruct (CreateOrPatch x mx (c0 x)) as [[r e] v].
    reflexivity. }
  assert (Hnone : forall l : list (nat * Mut), o ∉ l.*1 ->
            filter (fun c => call_obj c = o) (map (call_of CreateOrPatch c0) l) = []).
  { induction l as [|e l IH]; intros Hn; [reflexivity|].
    cbn [map]. rewrite filter_cons_False.
    - apply IH. intros Hin. apply Hn. rewrite fmap_cons. apply elem_of_cons.
      right. exact Hin.
    - rewrite Hobj. intros Heq. apply Hn. rewrite fmap_cons. apply elem_of_cons.
      left. symmetry. exact Heq. }
  induction order as [|[x mx] l IH]; intros Hnd Hin.
  - apply elem_of_nil in Hin. contradiction.
  - cbn [fmap list_fmap fst] in Hnd. apply NoDup_cons in Hnd as [Hx Hnd].
    apply elem_of_cons in Hin as [Heq | Hin].
    + injection Heq as <- <-. cbn [map]. rewrite filter_cons_True by (rewrite Hobj; reflexivity).
      rewrite Hnone by exact Hx. reflexivity.
    + cbn [map]. rewrite filter_cons_False.
      * apply IH; assumption.
      * rewrite Hobj. simpl. intros ->. apply Hx.
        apply list_elem_of_fmap. exists (o, mu). split; [reflexivity | exact Hin].
Qed.

Lemma existsb_perm (f : Call -> bool) (l1 l2 : list Call) :
  l1 ≡ₚ l2 -> existsb f l1 = existsb f l2.
Proof.
  intros Hp. apply Bool.eq_true_iff_eq. rewrite !existsb_exists.
  split; intros [x [Hin Hx]]; exists x; split; try exact Hx.
  - eapply Permutation_in; [exact Hp | exact Hin].
  - eapply Permutation_in; [symmetry; exact Hp | exact Hin].
Qed.

(** C1: whatever the iteration order and the backend,
    [CreateOrPatchTrackedObjects] returns true exactly when one of its
    [CreateOrPatch] calls returned an error; on an empty map it returns
    false, makes no call, writes no log record and leaves the cluster
    alone. *)
Theorem CreateOrPatchTrackedObjects_requeue_iff {Mut Val : Type}
    (GetName GetKind : nat -> string)
    (CreateOrPatch : nat -> Mut -> Val -> OperationResult * option goerror * Val)
    (trackedObjects : gmap nat Mut) (c0 : nat -> Val) (final : LoopState) :
  CreateOrPatchTrackedObjects_run GetName GetKind CreateOrPatch trackedObjects c0 final ->
  (requeue final = true <-> exists c, In c (calls final) /\ call_err c <> None) /\
  (trackedObjects = ∅ ->
     requeue final = false /\ calls final = [] /\ logs final = [] /\ cluster final = c0).
Proof.
  intros [order [Hr ->]]. split.
  - destruct (run_inv GetName GetKind CreateOrPatch order c0) as [Hq _].
    rewrite Hq, existsb_exists. unfold has_err.
    split; intros [c [Hin Hc]]; exists c; split; auto; destruct (call_err c); congruence.
  - intros ->. unfold range_order in Hr. rewrite map_to_list_empty in Hr.
    symmetry in Hr. apply Permutation_nil in Hr. subst order. repeat split.
Qed.

Lemma CreateOrPatchTrackedObjects_requeue_iff_witness :
  let backend := fun (o : nat) (_ : unit) (_ : unit) =>
    if Nat.eqb o 1 then (OperationResultNone, Some (ErrString "conflict"), tt)
    else (OperationResultCreated, None, tt) in
  let final := run_loop (fun _ => "obj") (fun _ => "ConfigMap") backend [(1%nat, tt)] (fun _ => tt) in
  CreateOrPatchTrackedObjects_run (fun _ => "obj") (fun _ => "ConfigMap") backend
    {[1%nat := tt]} (fun _ => tt) final /\
  (requeue final = true <-> exists c, In c (calls final) /\ call_err c <> None) /\
  ({[1%nat := tt]} = (∅ : gmap nat unit) ->
     requeue final = false /\ calls final = [] /\ logs final = [] /\ cluster final = (fun _ => tt)).
Proof.
  intros backend final.
  assert (H : CreateOrPatchTrackedObjects_run (fun _ => "obj") (fun _ => "ConfigMap") backend
                {[1%nat := tt]} (fun _ => tt) final).
  { exists [(1%nat, tt)]. split; [|reflexivity].
    unfold range_order. rewrite map_to_list_singleton. reflexivity. }
  split; [exact H|]. apply (CreateOrPatchTrackedObjects_requeue_iff _ _ _ _ _ _ H).
Defined.

(** C5: a failing [CreateOrPatch] never stops the loop: along any
    iteration order, the loop calls [CreateOrPatch] once on every tracked
    object, in that order, writes one log record per call, and the call
    made on an object (hence its log record) is the one [CreateOrPatch]
    gives for that object and its own cluster entry: replacing the
    backend by one that answers the same on that object, whatever it
    answers on the others, leaves that object's call unchanged. *)
Theorem CreateOrPatchTrackedObjects_failure_isolated {Mut Val : Type}
    (GetName GetKind : nat -> string)
    (CreateOrPatch : nat -> Mut -> Val -> OperationResult * option goerror * Val)
    (trackedObjects : gmap nat Mut) (c0 : nat -> Val) (order : list (nat * Mut)) :
  range_order trackedObjects order ->
  let final := run_loop GetName GetKind CreateOrPatch order c0 in
  map call_obj (calls final) = order.*1 /\
  NoDup (map call_obj (calls final)) /\
  length (calls final) = size trackedObjects /\
  logs final = map (log_of GetName GetKind) (calls final) /\
  (forall o mu, trackedObjects !! o = Some mu ->
     filter (fun c => call_obj c = o) (calls final) = [call_of CreateOrPatch c0 (o, mu)]) /\
  (forall CreateOrPatch' o mu, trackedObjects !! o = Some mu ->
     CreateOrPatch' o mu (c0 o) = CreateOrPatch o mu (c0 o) ->
     filter (fun c => call_obj c = o)
       (calls (run_loop GetName GetKind CreateOrPatch' order c0))
     = filter (fun c => call_obj c = o) (calls final)).
Proof.
  intros Hr final.
  pose proof (range_order_NoDup _ _ Hr) as Hnd.
  assert (Hc : calls final = map (call_of CreateOrPatch c0) order)
    by (apply (run_calls GetName GetKind CreateOrPatch trackedObjects); exact Hr).
  assert (Hobj : map call_obj (calls final) = order.*1).
  { rewrite Hc, map_map. rewrite list_fmap_alt. apply map_ext. intros [x mx].
    unfold call_of. destruct (CreateOrPatch x mx (c0 x)) as [[r e] v]. reflexivity. }
  assert (Hin : forall o mu, trackedObjects !! o = Some mu -> (o, mu) ∈ order).
  { intros o mu Hl. unfold range_order in Hr. rewrite Hr.
    apply elem_of_map_to_list. exact Hl. }
  split; [exact Hobj|]. split; [rewrite Hobj; exact Hnd|]. split.
  { rewrite Hc, length_map. unfold range_order in Hr. rewrite Hr.
    rewrite length_map_to_list. reflexivity. }
  split; [apply (run_inv GetName GetKind CreateOrPatch order c0)|]. split.
  - intros o mu Hl. rewrite Hc. apply filter_calls_of; [exact Hnd | apply Hin; exact Hl].
  - intros CreateOrPatch' o mu Hl Heq.
    rewrite (run_calls GetName GetKind CreateOrPatch' trackedObjects order c0 Hr), Hc.
    rewrite (filter_calls_of CreateOrPatch' c0 order o mu Hnd (Hin o mu Hl)).
    rewrite (filter_calls_of CreateOrPatch c0 order o mu Hnd (Hin o mu Hl)).
    unfold call_of. rewrite Heq. reflexivity.
Qed.

Lemma CreateOrPatchTrackedObjects_failure_isolated_witness :
  let backend := fun (o : nat) (_ : unit) (_ : unit) =>
    if Nat.eqb o 2 then (OperationResultNone, Some (ErrString "conflict"), tt)
    else (OperationResultCreated, None, tt) in
  let backend_ok := fun (_ : nat) (_ : unit) (_ : unit) =>
    (OperationResultCreated, @None goerror, tt) in
  let m : gmap nat unit := <[1%nat := tt]> (<[2%nat := tt]> ∅) in
  let order := [(2%nat, tt); (1%nat, tt)] in
  let final := run_loop (fun _ => "obj") (fun _ => "Secret") backend order (fun _ => tt) in
  range_order m order /\
  (* object 2 fails, object 1 succeeds, and the run asks for a requeue *)
  map has_err (calls final) = [true; false] /\
  requeue final = true /\
  (map call_obj (calls final) = order.*1 /\
   NoDup (map call_obj (calls final)) /\
   length (calls final) = size m /\
   logs final = map (log_of (fun _ => "obj") (fun _ => "Secret")) (calls final) /\
   (forall o mu, m !! o = Some mu ->
      filter (fun c => call_obj c = o) (calls final) = [call_of backend (fun _ => tt) (o, mu)]) /\
   (forall CreateOrPatch' o mu, m !! o = Some mu ->
      CreateOrPatch' o mu tt = backend o mu tt ->
      filter (fun c => call_obj c = o)
        (calls (run_loop (fun _ => "obj") (fun _ => "Secret") CreateOrPatch' order (fun _ => tt)))
      = filter (fun c => call_obj c = o) (calls final))) /\
  (* the call on object 1 is the same whether object 2 fails or not *)
  filter (fun c => call_obj c = 1%nat)
    (calls (run_loop (fun _ => "obj") (fun _ => "Secret") backend_ok order (fun _ => tt)))
  = filter (fun c => call_obj c = 1%nat) (calls final).
Proof.
  intros backend backend_ok m order final.
  assert (H : range_order m order).
  { unfold range_order, m, order.
    rewrite map_to_list_insert by (simplify_map_eq; reflexivity).
    rewrite map_to_list_insert by (simplify_map_eq; reflexivity).
    rewrite map_to_list_empty. apply perm_swap. }
  pose proof (CreateOrPatchTrackedObjects_failure_isolated (fun _ => "obj") (fun _ => "Secret")
    backend m (fun _ => tt) order H) as Hc.
  split; [exact H|]. split; [vm_compute; reflexivity|]. split; [vm_compute; reflexivity|].
  split; [exact Hc|].
  destruct Hc as (_ & _ & _ & _ & _ & Hiso).
  apply (Hiso backend_ok 1%nat tt); [unfold m; simplify_map_eq; reflexivity | reflexivity].
Defined.

(** C9 (as stated, refuted): two runs of [CreateOrPatchTrackedObjects]
    over the same two-entry map may call [CreateOrPatch] on the objects in
    different sequences, since Go's map [range] may visit the entries in
    either order. *)
Lemma CreateOrPatchTrackedObjects_order_not_fixed :
  ~ (forall (trackedObjects : gmap nat unit) (c0 : nat -> unit) (o1 o2 : list (nat * unit)),
       range_order trackedObjects o1 -> range_order trackedObjects o2 ->
       let backend := fun (_ : nat) (_ : unit) (_ : unit) => (OperationResultNone, @None goerror, tt) in
       map call_obj (calls (run_loop (fun _ => "obj") (fun _ => "Pod") backend o1 c0))
       = map call_obj (calls (run_loop (fun _ => "obj") (fun _ => "Pod") backend o2 c0))).
Proof.
  intros H.
  assert (Hm : map_to_list (<[1%nat := tt]> (<[2%nat := tt]> ∅) : gmap nat unit)
               ≡ₚ [(1%nat, tt); (2%nat, tt)]).
  { rewrite map_to_list_insert by (simplify_map_eq; reflexivity).
    rewrite map_to_list_insert by (simplify_map_eq; reflexivity).
    rewrite map_to_list_empty. reflexivity. }
  specialize (H (<[1%nat := tt]> (<[2%nat := tt]> ∅)) (fun _ => tt)
                [(1%nat, tt); (2%nat, tt)] [(2%nat, tt); (1%nat, tt)]).
  unfold range_order in H. rewrite Hm in H.
  specialize (H ltac:(reflexivity) ltac:(apply perm_swap)).
  vm_compute in H. discriminate H.
Qed.

(** C9 (amended): the iteration order is the one Go's map [range]
    picks, which is not fixed. Every run calls [CreateOrPatch] exactly
    once on each tracked object (one call per entry, and for each tracked
    object exactly one call, made on its own mutate function and cluster
    entry), so the calls of any two runs over the same map are
    reorderings of each other, and the two runs return the same
    boolean. *)
Theorem CreateOrPatchTrackedObjects_order_irrelevant {Mut Val : Type}
    (GetName GetKind : nat -> string)
    (CreateOrPatch : nat -> Mut -> Val -> OperationResult * option goerror * Val)
    (trackedObjects : gmap nat Mut) (c0 : nat -> Val) (o1 o2 : list (nat * Mut)) :
  range_order trackedObjects o1 -> range_order trackedObjects o2 ->
  (forall order, order = o1 \/ order = o2 ->
     length (calls (run_loop GetName GetKind CreateOrPatch order c0)) = size trackedObjects /\
     forall o mu, trackedObjects !! o = Some mu ->
       filter (fun c => call_obj c = o) (calls (run_loop GetName GetKind CreateOrPatch order c0))
       = [call_of CreateOrPatch c0 (o, mu)]) /\
  calls (run_loop GetName GetKind CreateOrPatch o1 c0)
    ≡ₚ calls (run_loop GetName GetKind CreateOrPatch o2 c0) /\
  map call_obj (calls (run_loop GetName GetKind CreateOrPatch o1 c0))
    ≡ₚ map call_obj (calls (run_loop GetName GetKind CreateOrPatch o2 c0)) /\
  CreateOrPatchTrackedObjects_along GetName GetKind CreateOrPatch o1 c0
    = CreateOrPatchTrackedObjects_along GetName GetKind CreateOrPatch o2 c0.
Proof.
  intros H1 H2.
  assert (Hp : calls (run_loop GetName GetKind CreateOrPatch o1 c0)
                 ≡ₚ calls (run_loop GetName GetKind CreateOrPatch o2 c0)).
  { rewrite (run_calls _ _ _ _ _ _ H1), (run_calls _ _ _ _ _ _ H2).
    apply Permutation_map. unfold range_order in *. rewrite H1, H2. reflexivity. }
  split.
  { intros order Ho.
    assert (Hr : range_order trackedObjects order) by (destruct Ho as [-> | ->]; assumption).
    rewrite (run_calls _ _ _ _ _ _ Hr). split.
    - rewrite length_map. unfold range_order in Hr. rewrite Hr, length_map_to_list.
      reflexivity.
    - intros o mu Hl. apply filter_calls_of.
      + eapply range_order_NoDup. exact Hr.
      + unfold range_order in Hr. rewrite Hr. apply elem_of_map_to_list. exact Hl. }
  split; [exact Hp|]. split; [apply Permutation_map; exact Hp|].
  unfold CreateOrPatchTrackedObjects_along.
  destruct (run_inv GetName GetKind CreateOrPatch o1 c0) as [Hq1 _].
  destruct (run_inv GetName GetKind CreateOrPatch o2 c0) as [Hq2 _].
  rewrite Hq1, Hq2. apply existsb_perm. exact Hp.
Qed.

Lemma CreateOrPatchTrackedObjects_order_irrelevant_witness :
  let backend := fun (o : nat) (_ : unit) (_ : unit) =>
    if Nat.eqb o 2 then (OperationResultNone, Some (ErrString "conflict"), tt)
    else (OperationResultUpdated, None, tt) in
  let m : gmap nat unit := <[1%nat := tt]> (<[2%nat := tt]> ∅) in
  let o1 := [(1%nat, tt); (2%nat, tt)] in
  let o2 := [(2%nat, tt); (1%nat, tt)] in
  let run := fun order => run_loop (fun _ => "obj") (fun _ => "Pod") backend order (fun _ => tt) in
  range_order m o1 /\ range_order m o2 /\
  (* the two runs make their calls in different sequences *)
  map call_obj (calls (run o1)) <> map call_obj (calls (run o2)) /\
  ((forall order, order = o1 \/ order = o2 ->
      length (calls (run order)) = size m /\
      forall o mu, m !! o = Some mu ->
        filter (fun c => call_obj c = o) (calls (run order))
        = [call_of backend (fun _ => tt) (o, mu)]) /\
   calls (run o1) ≡ₚ calls (run o2) /\
   map call_obj (calls (run o1)) ≡ₚ map call_obj (calls (run o2)) /\
   CreateOrPatchTrackedObjects_along (fun _ => "obj") (fun _ => "Pod") backend o1 (fun _ => tt)
     = CreateOrPatchTrackedObjects_along (fun _ => "obj") (fun _ => "Pod") backend o2 (fun _ => tt)).
Proof.
  intros backend m o1 o2 run.
  assert (Hm : map_to_list m ≡ₚ [(1%nat, tt); (2%nat, tt)]).
  { unfold m. rewrite map_to_list_insert by (simplify_map_eq; reflexivity).
    rewrite map_to_list_insert by (simplify_map_eq; reflexivity).
    rewrite map_to_list_empty. reflexivity. }
  assert (H1 : range_order m o1)
    by (unfold range_order, o1; rewrite Hm; reflexivity).
  assert (H2 : range_order m o2)
    by (unfold range_order, o2; rewrite Hm; apply perm_swap).
  split; [exact H1|]. split; [exact H2|]. split; [vm_compute; discriminate|].
  exact (CreateOrPatchTrackedObjects_order_irrelevant (fun _ => "obj") (fun _ => "Pod")
           backend m (fun _ => tt) o1 o2 H1 H2).
Defined.

(* ------------------------------------------------------------------ *)
(** ** Hex encoding and line splitting *)

Lemma lines_no_newline (a : string) :
  no_newline a = true -> lines a = [a].
Proof.
  induction a as [|c a IH]; intros H; [reflexivity|].
  simpl in H. apply andb_prop in H as [Hc Ha]. apply negb_true_iff in Hc.
  simpl. rewrite Hc, (IH Ha). reflexivity.
Qed.

Lemma lines_app_newline (a rest : string) :
  no_newline a = true -> lines (a +:+ String newline rest) = a :: lines rest.
Proof.
  induction a as [|c a IH]; intros H.
  - simpl. reflexivity.
  - simpl in H. apply andb_prop in H as [Hc Ha]. apply negb_true_iff in Hc.
    simpl. rewrite Hc, (IH Ha). reflexivity.
Qed.

Lemma lower_hex_not_newline (c : Ascii.ascii) :
  is_lower_hex c = true -> Ascii.eqb c newline = false.
Proof.
  destruct c as [[] [] [] [] [] [] [] []]; vm_compute; congruence.
Qed.

Lemma all_lower_hex_no_newline (s : string) :
  all_lower_hex s = true -> no_newline s = true.
Proof.
  induction s as [|c s IH]; intros H; [reflexivity|].
  unfold all_lower_hex in H. cbn [String.list_ascii_of_string forallb] in H.
  apply andb_prop in H as [Hc Hs].
  unfold no_newline. cbn [String.list_ascii_of_string forallb].
  rewrite (lower_hex_not_newline c Hc). exact (IH Hs).
Qed.

Lemma byte_hex_lower (v : Byte.byte) :
  is_lower_hex (hex_char (Z.shiftr (byteZ v) 4)) &&
  is_lower_hex (hex_char (Z.land (byteZ v) 15)) = true.
Proof. destruct v; reflexivity. Qed.

Lemma EncodeToString_lower_hex (l : list Byte.byte) :
  all_lower_hex (EncodeToString l) = true.
Proof.
  induction l as [|v l IH]; [reflexivity|].
  unfold all_lower_hex in *. simpl.
  pose proof (byte_hex_lower v) as Hv. apply andb_prop in Hv as [H1 H2].
  rewrite H1, H2, IH. reflexivity.
Qed.

Lemma EncodeToString_length (l : list Byte.byte) :
  String.length (EncodeToString l) = (2 * length l)%nat.
Proof. induction l as [|v l IH]; simpl; [reflexivity | rewrite IH; lia]. Qed.

Lemma byte_hex_roundtrip (v : Byte.byte) :
  DecodeString (EncodeToString [v]) = Some [v].
Proof. destruct v; vm_compute; reflexivity. Qed.

Lemma DecodeString_EncodeToString (l : list Byte.byte) :
  DecodeString (EncodeToString l) = Some l.
Proof.
  induction l as [|v l IH]; [reflexivity|].
  pose proof (byte_hex_roundtrip v) as Hv. cbn [EncodeToString DecodeString] in *.
  destruct (fromHexChar (hex_char (Z.shiftr (byteZ v) 4))) as [a|]; [|discriminate].
  destruct (fromHexChar (hex_char (Z.land (byteZ v) 15))) as [b|]; [|discriminate].
  rewrite IH.
  destruct (Byte.of_N (Z.to_N (Z.lor (Z.shiftl a 4) b))) as [w|]; [|discriminate].
  injection Hv as ->. reflexivity.
Qed.

Lemma randomKey_ok (src : RandSource) (len : nat) (fill : nat -> Byte.byte) :
  replies src (reads src) = RandOk fill ->
  randomKey len src = (map fill (seq 0 len), None, mkRandSource (replies src) (S (reads src))).
Proof. intros H. unfold randomKey, rand_Read. rewrite H. reflexivity. Qed.

Lemma randomKey_err (src : RandSource) (len : nat) (e : goerror) :
  replies src (reads src) = RandErr e ->
  randomKey len src = ([], Some e, mkRandSource (replies src) (S (reads src))).
Proof. intros H. unfold randomKey, rand_Read. rewrite H. reflexivity. Qed.

(* ------------------------------------------------------------------ *)
(** ** Random secrets *)

(** C6: when the random read succeeds, [NewSwarmKey] returns no error
    and a text of exactly three lines: ["/key/swarm/psk/1.0.0"],
    ["/base16/"] and 64 lowercase hex characters that encode the 32 bytes
    read. *)
Theorem NewSwarmKey_format (src : RandSource) :
  match replies src (reads src) with
  | RandOk fill =>
      let buf := map fill (seq 0 32) in
      let key := EncodeToString buf in
      let '(out, err, _) := NewSwarmKey src in
      err = None /\
      out = "/key/swarm/psk/1.0.0" +:+ String newline ("/base16/" +:+ String newline key) /\
      lines out = ["/key/swarm/psk/1.0.0"; "/base16/"; key] /\
      String.length key = 64%nat /\
      all_lower_hex key = true /\
      length buf = 32%nat /\
      DecodeString key = Some buf
  | RandErr _ => True
  end.
Proof.
  destruct (replies src (reads src)) as [fill|e] eqn:Hr; [|exact I].
  cbv zeta. unfold NewSwarmKey. rewrite (randomKey_ok src 32 fill Hr).
  set (buf := map fill (seq 0 32)).
  assert (Hlen : length buf = 32%nat) by (unfold buf; rewrite length_map, length_seq; reflexivity).
  pose proof (EncodeToString_lower_hex buf) as Hhex.
  split; [reflexivity|]. split; [reflexivity|]. split.
  - unfold Sprintf_3lines, swarmPrefix, multiBase.
    rewrite lines_app_newline by reflexivity. rewrite lines_app_newline by reflexivity.
    rewrite lines_no_newline by (apply all_lower_hex_no_newline; exact Hhex).
    reflexivity.
  - split; [rewrite EncodeToString_length, Hlen; reflexivity|].
    split; [exact Hhex|]. split; [exact Hlen|]. apply DecodeString_EncodeToString.
Qed.

(** C7: [NewClusterSecret] reads the random source once. When the read
    succeeds it returns 64 lowercase hex characters encoding the 32 bytes
    read and no error; when it fails it returns the empty string and the
    source's error itself, without reading again. *)
Theorem NewClusterSecret_spec (src : RandSource) :
  let src' := mkRandSource (replies src) (S (reads src)) in
  match replies src (reads src) with
  | RandOk fill =>
      let buf := map fill (seq 0 32) in
      let '(secret, err, src1) := NewClusterSecret src in
      err = None /\ src1 = src' /\
      secret = EncodeToString buf /\
      String.length secret = 64%nat /\
      all_lower_hex secret = true /\
      length buf = 32%nat /\
      DecodeString secret = Some buf
  | RandErr e => NewClusterSecret src = (EmptyString, Some e, src')
  end.
Proof.
  cbv zeta. destruct (replies src (reads src)) as [fill|e] eqn:Hr.
  - unfold NewClusterSecret. rewrite (randomKey_ok src 32 fill Hr).
    set (buf := map fill (seq 0 32)).
    assert (Hlen : length buf = 32%nat) by (unfold buf; rewrite length_map, length_seq; reflexivity).
    split; [reflexivity|]. split; [reflexivity|]. split; [reflexivity|].
    split; [rewrite EncodeToString_length, Hlen; reflexivity|].
    split; [apply EncodeToString_lower_hex|]. split; [exact Hlen|].
    apply DecodeString_EncodeToString.
  - unfold NewClusterSecret. rewrite (randomKey_err src 32 e Hr). reflexivity.
Qed.

(* ------------------------------------------------------------------ *)
(** ** Identity errors *)

(** C8 (as stated, refuted): when [ci.MarshalPrivateKey] fails,
    [GenerateIdentity]'s error reads "cannot get bytes from private key:
    ..."; it does not carry the context "cannot serialize private key". *)
Lemma GenerateIdentity_serialize_context_differs :
  let gen := fun (_ : KeyType) (_ : Z) => @inl (unit * unit) goerror (tt, tt) in
  let idf := fun (_ : unit) => @inl string goerror "12D3KooWpeer" in
  let marsh := fun (_ : option unit) =>
    @inr (list Byte.byte) goerror (ErrString "unknown key type") in
  (GenerateIdentity gen idf marsh).2
    = Some (ErrWrap "cannot get bytes from private key: unknown key type"
              (ErrString "unknown key type")) /\
  ~ (exists err, (GenerateIdentity gen idf marsh).2 = Some err /\
                 String.prefix "cannot serialize private key" (Error err) = true).
Proof.
  split; [reflexivity|].
  intros [err [Herr Hp]]. vm_compute in Herr. injection Herr as <-.
  vm_compute in Hp. discriminate Hp.
Qed.

(** C8 (amended): every error [GenerateIdentity] returns comes with an
    empty peer ID and key string and wraps the original error, which
    [Unwrap] gives back; its message is "cannot generate new key: "
    followed by the original message when [NewKey] (key generation or
    peer ID derivation) failed, and "cannot get bytes from private key: "
    followed by the original message when [ci.MarshalPrivateKey] failed. *)
Theorem GenerateIdentity_error_context {PrivKey PubKey : Type}
    (GenerateKeyPair : KeyType -> Z -> (PrivKey * PubKey) + goerror)
    (IDFromPublicKey : PubKey -> string + goerror)
    (MarshalPrivateKey : option PrivKey -> list Byte.byte + goerror)
    (err : goerror) :
  (GenerateIdentity GenerateKeyPair IDFromPublicKey MarshalPrivateKey).2 = Some err ->
  (GenerateIdentity GenerateKeyPair IDFromPublicKey MarshalPrivateKey).1 = (EmptyString, EmptyString) /\
  exists e, Unwrap err = Some e /\
    (((NewKey GenerateKeyPair IDFromPublicKey).2 = Some e /\
      Error err = "cannot generate new key: " +:+ Error e) \/
     ((NewKey GenerateKeyPair IDFromPublicKey).2 = None /\
      MarshalPrivateKey (NewKey GenerateKeyPair IDFromPublicKey).1.1 = inr e /\
      Error err = "cannot get bytes from private key: " +:+ Error e)).
Proof.
  unfold GenerateIdentity.
  destruct (NewKey GenerateKeyPair IDFromPublicKey) as [[privateKey peerid] kerr] eqn:Hk.
  destruct kerr as [e|].
  - intros H. injection H as <-. split; [reflexivity|].
    exists e. split; [reflexivity|]. left. split; reflexivity.
  - destruct (MarshalPrivateKey privateKey) as [privBytes|e] eqn:Hm.
    + intros H. discriminate H.
    + intros H. injection H as <-. split; [reflexivity|].
      exists e. split; [reflexivity|]. right. simpl. split; [reflexivity|].
      split; [exact Hm | reflexivity].
Qed.

Lemma GenerateIdentity_error_context_witness :
  let gen := fun (_ : KeyType) (_ : Z) => @inl (unit * unit) goerror (tt, tt) in
  let idf := fun (_ : unit) => @inl string goerror "12D3KooWpeer" in
  let marsh := fun (_ : option unit) =>
    @inr (list Byte.byte) goerror (ErrString "unknown key type") in
  let err := ErrWrap "cannot get bytes from private key: unknown key type"
               (ErrString "unknown key type") in
  (GenerateIdentity gen idf marsh).2 = Some err /\
  ((GenerateIdentity gen idf marsh).1 = (EmptyString, EmptyString) /\
   exists e, Unwrap err = Some e /\
     (((NewKey gen idf).2 = Some e /\ Error err = "cannot generate new key: " +:+ Error e) \/
      ((NewKey gen idf).2 = None /\ marsh (NewKey gen idf).1.1 = inr e /\
       Error err = "cannot get bytes from private key: " +:+ Error e))).
Proof.
  intros gen idf marsh err.
  assert (H : (GenerateIdentity gen idf marsh).2 = Some err) by reflexivity.
  split; [exact H|]. exact (GenerateIdentity_error_context gen idf marsh err H).
Defined.

(* ------------------------------------------------------------------ *)
(** ** Base64 encoding of the private key *)

Lemma lor_shiftl_low (x y k : Z) :
  0 <= k -> 0 <= x -> 0 <= y < 2 ^ k -> Z.lor (Z.shiftl x k) y = x * 2 ^ k + y.
Proof.
  intros Hk Hx Hy. rewrite Z.shiftl_mul_pow2 by exact Hk.
  assert (Hl : Z.land (x * 2 ^ k) y = 0).
  { apply Z.bits_inj'. intros n Hn. rewrite Z.land_spec, Z.bits_0.
    destruct (Z.lt_ge_cases n k) as [Hlt | Hge].
    - rewrite Z.mul_pow2_bits_low by exact Hlt. reflexivity.
    - destruct (Z.eq_dec y 0) as [-> | Hy0]; [rewrite Z.bits_0; apply andb_false_r|].
      rewrite (Z.bits_above_log2 y n); [apply andb_false_r | lia|].
      assert (Hlog : Z.log2 y < k) by (apply Z.log2_lt_pow2; lia). lia. }
  rewrite <- Z.lxor_lor by exact Hl. rewrite <- Z.add_nocarry_lxor by exact Hl.
  reflexivity.
Qed.

Lemma byteZ_bounds (a : Byte.byte) : 0 <= byteZ a < 256.
Proof. unfold byteZ. pose proof (Byte.to_N_bounded a). lia. Qed.

Lemma to_byte_mod (x : Z) (a : Byte.byte) : x mod 256 = byteZ a -> to_byte x = a.
Proof.
  intros H. unfold to_byte.
  replace (Z.land x 255) with (x mod 2 ^ 8) by (rewrite <- Z.land_ones by lia; reflexivity).
  change (2 ^ 8) with 256. rewrite H. unfold byteZ. rewrite N2Z.id, Byte.of_to_N.
  reflexivity.
Qed.

Lemma b64_char_mod (n : Z) : b64_char n = b64_char (n mod 64).
Proof.
  unfold b64_char.
  replace (Z.land n 63) with (n mod 2 ^ 6) by (rewrite <- Z.land_ones by lia; reflexivity).
  replace (Z.land (n mod 64) 63) with ((n mod 64) mod 2 ^ 6)
    by (rewrite <- Z.land_ones by lia; reflexivity).
  change (2 ^ 6) with 64. rewrite Z.mod_mod by lia. reflexivity.
Qed.

Lemma b64_char_small (k : Z) :
  0 <= k < 64 -> b64_decodeMap (b64_char k) = Some k /\ is_b64_char (b64_char k) = true.
Proof.
  intros Hk. rewrite <- (Z2Nat.id k) by lia.
  assert (Hn : (Z.to_nat k < 64)%nat) by lia. revert Hn.
  generalize (Z.to_nat k) as i. intros i Hi.
  do 64 (destruct i as [|i]; [split; reflexivity|]). lia.
Qed.

Lemma b64_decode_char (n : Z) : b64_decodeMap (b64_char n) = Some (n mod 64).
Proof. rewrite b64_char_mod. apply b64_char_small. apply Z.mod_pos_bound. lia. Qed.

Lemma b64_char_not_pad (n : Z) : Ascii.eqb (b64_char n) pad = false.
Proof.
  destruct (Ascii.eqb_spec (b64_char n) pad) as [He|]; [|reflexivity].
  pose proof (b64_decode_char n) as Hd. rewrite He in Hd. discriminate Hd.
Qed.

Lemma b64_char_alphabet (n : Z) : is_b64_char (b64_char n) = true.
Proof. rewrite b64_char_mod. apply b64_char_small. apply Z.mod_pos_bound. lia. Qed.

(** Induction along the three-byte groups of the encoder. *)
Lemma b64_groups_ind (P : list Byte.byte -> Prop) :
  P [] -> (forall a, P [a]) -> (forall a b, P [a; b]) ->
  (forall a b c rest, P rest -> P (a :: b :: c :: rest)) ->
  forall l, P l.
Proof.
  intros H0 H1 H2 H3.
  assert (Hn : forall n l, (length l <= n)%nat -> P l).
  { induction n as [|n IH]; intros l Hl;
      destruct l as [|a [|b [|c rest]]]; simpl in Hl; try lia; auto.
    apply H3, IH. lia. }
  intros l. apply (Hn (length l) l). lia.
Qed.

Ltac bits_arith :=
  rewrite ?Z.shiftl_mul_pow2, ?Z.shiftr_div_pow2 by lia;
  Z.div_mod_to_equations; lia.

Lemma b64_roundtrip (l : list Byte.byte) : b64_DecodeString (b64_EncodeToString l) = Some l.
Proof.
  induction l as [| a | a b | a b c rest IH] using b64_groups_ind.
  - reflexivity.
  - pose proof (byteZ_bounds a).
    cbn [b64_EncodeToString b64_DecodeString]. rewrite !b64_decode_char.
    change "="%char with pad. rewrite Ascii.eqb_refl. cbn [andb String.eqb].
    do 2 f_equal. apply to_byte_mod.
    rewrite lor_shiftl_low by (try lia; bits_arith). bits_arith.
  - pose proof (byteZ_bounds a). pose proof (byteZ_bounds b).
    cbn [b64_EncodeToString b64_DecodeString]. rewrite !b64_decode_char.
    rewrite b64_char_not_pad.
    change "="%char with pad. rewrite Ascii.eqb_refl. cbn [andb String.eqb].
    rewrite (lor_shiftl_low (byteZ a) _ 16) by (try lia; bits_arith).
    rewrite (lor_shiftl_low (_ mod 64) (Z.shiftl _ 6) 12) by (try lia; bits_arith).
    rewrite lor_shiftl_low by (try lia; bits_arith).
    f_equal. f_equal; [|f_equal]; apply to_byte_mod; bits_arith.
  - pose proof (byteZ_bounds a). pose proof (byteZ_bounds b). pose proof (byteZ_bounds c).
    cbn [b64_EncodeToString b64_DecodeString]. rewrite !b64_decode_char.
    rewrite !b64_char_not_pad. rewrite IH.
    rewrite (lor_shiftl_low (byteZ b) _ 8) by (try lia; bits_arith).
    rewrite (lor_shiftl_low (byteZ a) _ 16) by (try lia; bits_arith).
    rewrite (lor_shiftl_low (_ mod 64) (_ mod 64) 6) by (try lia; bits_arith).
    rewrite (lor_shiftl_low (_ mod 64) (_ * 2 ^ 6 + _) 12) by (try lia; bits_arith).
    rewrite lor_shiftl_low by (try lia; bits_arith).
    f_equal. f_equal; [|f_equal; [|f_equal]]; apply to_byte_mod; bits_arith.
Qed.

Lemma b64_length (l : list Byte.byte) :
  String.length (b64_EncodeToString l) = (4 * ((length l + 2) / 3))%nat.
Proof.
  induction l as [| a | a b | a b c rest IH] using b64_groups_ind; try reflexivity.
  cbn [b64_EncodeToString String.length length]. rewrite IH.
  replace (S (S (S (length rest))) + 2)%nat with (length rest + 2 + 1 * 3)%nat by lia.
  rewrite Nat.div_add by lia. lia.
Qed.

Lemma b64_alphabet (l : list Byte.byte) : all_b64 (b64_EncodeToString l) = true.
Proof.
  unfold all_b64.
  induction l as [| a | a b | a b c rest IH] using b64_groups_ind;
    cbn [b64_EncodeToString String.list_ascii_of_string forallb];
    rewrite ?b64_char_alphabet, ?IH; reflexivity.
Qed.

(* ------------------------------------------------------------------ *)
(** ** [NewKey] and the success path of [GenerateIdentity] *)

(** [NewKey] asks for an Ed25519 key with the bit-size argument 4096. It
    succeeds exactly when key generation and peer ID derivation both
    succeed, and then returns the generated private key and the ID
    derived from the matching public key. On failure it returns a nil
    key, an empty ID and the error of the step that failed. *)
Lemma NewKey_outcome {PrivKey PubKey : Type}
    (GenerateKeyPair : KeyType -> Z -> (PrivKey * PubKey) + goerror)
    (IDFromPublicKey : PubKey -> string + goerror) :
  let '(priv, peerid, err) := NewKey GenerateKeyPair IDFromPublicKey in
  match err with
  | None => exists k pub, GenerateKeyPair Ed25519 4096 = inl (k, pub) /\
              IDFromPublicKey pub = inl peerid /\ priv = Some k
  | Some e => priv = None /\ peerid = EmptyString /\
      (GenerateKeyPair Ed25519 4096 = inr e \/
       exists k pub, GenerateKeyPair Ed25519 4096 = inl (k, pub) /\ IDFromPublicKey pub = inr e)
  end.
Proof.
  unfold NewKey. destruct (GenerateKeyPair Ed25519 4096) as [[k pub]|e] eqn:Hg.
  - destruct (IDFromPublicKey pub) as [id|e] eqn:Hi.
    + exists k, pub. auto.
    + split; [reflexivity|]. split; [reflexivity|]. right. exists k, pub. auto.
  - split; [reflexivity|]. split; [reflexivity|]. left. reflexivity.
Qed.

(** When [GenerateIdentity] returns no error, the peer ID is the one
    derived from the generated key, and the private-key string is the
    standard base64 encoding of the bytes [ci.MarshalPrivateKey] gave:
    decoding it gives those bytes back. *)
Theorem GenerateIdentity_success_roundtrip {PrivKey PubKey : Type}
    (GenerateKeyPair : KeyType -> Z -> (PrivKey * PubKey) + goerror)
    (IDFromPublicKey : PubKey -> string + goerror)
    (MarshalPrivateKey : option PrivKey -> list Byte.byte + goerror)
    (peerid privStr : string) :
  GenerateIdentity GenerateKeyPair IDFromPublicKey MarshalPrivateKey = (peerid, privStr, None) ->
  exists k pub privBytes,
    GenerateKeyPair Ed25519 4096 = inl (k, pub) /\
    IDFromPublicKey pub = inl peerid /\
    MarshalPrivateKey (Some k) = inl privBytes /\
    privStr = b64_EncodeToString privBytes /\
    b64_DecodeString privStr = Some privBytes.
Proof.
  unfold GenerateIdentity. pose proof (NewKey_outcome GenerateKeyPair IDFromPublicKey) as Hk.
  destruct (NewKey GenerateKeyPair IDFromPublicKey) as [[priv id] [e|]].
  - intros H. discriminate H.
  - destruct Hk as (k & pub & Hg & Hi & ->).
    destruct (MarshalPrivateKey (Some k)) as [privBytes|e] eqn:Hm; [|intros H; discriminate H].
    intros H. injection H as <- <-.
    exists k, pub, privBytes. split; [exact Hg|]. split; [exact Hi|]. split; [exact Hm|].
    split; [reflexivity|]. apply b64_roundtrip.
Qed.

Lemma GenerateIdentity_success_roundtrip_witness :
  let gen := fun (_ : KeyType) (_ : Z) => @inl (unit * unit) goerror (tt, tt) in
  let idf := fun (_ : unit) => @inl string goerror "12D3KooWpeer" in
  let marsh := fun (_ : option unit) =>
    @inl (list Byte.byte) goerror [Byte.x08; Byte.x01; Byte.x12; Byte.x40] in
  GenerateIdentity gen idf marsh = ("12D3KooWpeer", "CAESQA==", None) /\
  exists k pub privBytes,
    gen Ed25519 4096 = inl (k, pub) /\ idf pub = inl "12D3KooWpeer" /\
    marsh (Some k) = inl privBytes /\
    "CAESQA==" = b64_EncodeToString privBytes /\
    b64_DecodeString "CAESQA==" = Some privBytes.
Proof.
  intros gen idf marsh.
  assert (H : GenerateIdentity gen idf marsh = ("12D3KooWpeer", "CAESQA==", None)) by reflexivity.
  split; [exact H|]. exact (GenerateIdentity_success_roundtrip gen idf marsh _ _ H).
Defined.

(** The private-key string [GenerateIdentity] returns is padded
    standard base64: four characters per started group of three bytes,
    all from the standard alphabet or [=]. *)
Theorem GenerateIdentity_privStr_format {PrivKey PubKey : Type}
    (GenerateKeyPair : KeyType -> Z -> (PrivKey * PubKey) + goerror)
    (IDFromPublicKey : PubKey -> string + goerror)
    (MarshalPrivateKey : option PrivKey -> list Byte.byte + goerror)
    (peerid privStr : string) (privBytes : list Byte.byte) :
  GenerateIdentity GenerateKeyPair IDFromPublicKey MarshalPrivateKey = (peerid, privStr, None) ->
  MarshalPrivateKey (NewKey GenerateKeyPair IDFromPublicKey).1.1 = inl privBytes ->
  String.length privStr = (4 * ((length privBytes + 2) / 3))%nat /\
  all_b64 privStr = true.
Proof.
  unfold GenerateIdentity.
  destruct (NewKey GenerateKeyPair IDFromPublicKey) as [[priv id] [e|]]; cbn [fst].
  - intros H. discriminate H.
  - intros H Hm. rewrite Hm in H. injection H as _ <-.
    split; [apply b64_length | apply b64_alphabet].
Qed.

Lemma GenerateIdentity_privStr_format_witness :
  let gen := fun (_ : KeyType) (_ : Z) => @inl (unit * unit) goerror (tt, tt) in
  let idf := fun (_ : unit) => @inl string goerror "12D3KooWpeer" in
  let marsh := fun (_ : option unit) =>
    @inl (list Byte.byte) goerror [Byte.x08; Byte.x01; Byte.x12; Byte.x40] in
  (GenerateIdentity gen idf marsh = ("12D3KooWpeer", "CAESQA==", None) /\
   marsh (NewKey gen idf).1.1 = inl [Byte.x08; Byte.x01; Byte.x12; Byte.x40]) /\
  (String.length "CAESQA==" = (4 * ((length [Byte.x08; Byte.x01; Byte.x12; Byte.x40] + 2) / 3))%nat /\
   all_b64 "CAESQA==" = true).
Proof.
  intros gen idf marsh.
  assert (H1 : GenerateIdentity gen idf marsh = ("12D3KooWpeer", "CAESQA==", None)) by reflexivity.
  assert (H2 : marsh (NewKey gen idf).1.1 = inl [Byte.x08; Byte.x01; Byte.x12; Byte.x40])
    by reflexivity.
  split; [split; assumption|]. exact (GenerateIdentity_privStr_format gen idf marsh _ _ _ H1 H2).
Defined.

(* ------------------------------------------------------------------ *)
(** ** Random reads *)

Lemma EncodeToString_inj (l1 l2 : list Byte.byte) :
  EncodeToString l1 = EncodeToString l2 -> l1 = l2.
Proof.
  intros H. apply (f_equal DecodeString) in H.
  rewrite !DecodeString_EncodeToString in H. injection H as H. exact H.
Qed.

(** Two successive [NewClusterSecret] calls use two successive reads of
    the source. The two secrets are equal exactly when the two reads
    gave the same 32 bytes. *)
Theorem NewClusterSecret_successive (src : RandSource) (fill1 fill2 : nat -> Byte.byte) :
  replies src (reads src) = RandOk fill1 ->
  replies src (S (reads src)) = RandOk fill2 ->
  let '(s1, err1, src1) := NewClusterSecret src in
  let '(s2, err2, src2) := NewClusterSecret src1 in
  err1 = None /\ err2 = None /\ reads src2 = S (S (reads src)) /\
  (s1 = s2 <-> map fill1 (seq 0 32) = map fill2 (seq 0 32)).
Proof.
  intros H1 H2. unfold NewClusterSecret at 1.
  rewrite (randomKey_ok src 32 fill1 H1).
  unfold NewClusterSecret.
  rewrite (randomKey_ok (mkRandSource (replies src) (S (reads src))) 32 fill2 H2).
  split; [reflexivity|]. split; [reflexivity|]. split; [reflexivity|].
  split; [apply EncodeToString_inj | intros ->; reflexivity].
Qed.

Lemma NewClusterSecret_successive_witness :
  let src := mkRandSource (fun i => RandOk (fun j => if Nat.eqb i j then Byte.xff else Byte.x00)) 0 in
  (replies src (reads src) = RandOk (fun j => if Nat.eqb 0 j then Byte.xff else Byte.x00) /\
   replies src (S (reads src)) = RandOk (fun j => if Nat.eqb 1 j then Byte.xff else Byte.x00)) /\
  (let '(s1, err1, src1) := NewClusterSecret src in
   let '(s2, err2, src2) := NewClusterSecret src1 in
   err1 = None /\ err2 = None /\ reads src2 = S (S (reads src)) /\
   (s1 = s2 <-> map (fun j => if Nat.eqb 0 j then Byte.xff else Byte.x00) (seq 0 32)
                 = map (fun j => if Nat.eqb 1 j then Byte.xff else Byte.x00) (seq 0 32))).
Proof.
  intros src.
  assert (H1 : replies src (reads src) = RandOk (fun j => if Nat.eqb 0 j then Byte.xff else Byte.x00))
    by reflexivity.
  assert (H2 : replies src (S (reads src)) = RandOk (fun j => if Nat.eqb 1 j then Byte.xff else Byte.x00))
    by reflexivity.
  split; [split; assumption|]. exact (NewClusterSecret_successive src _ _ H1 H2).
Defined.

(* ------------------------------------------------------------------ *)
(** ** More on [IPFSContainerResources] *)

(** For every int64 input, negative ones included, the memory request is
    [max(1, storageTB)] decimal gigabytes, with [storageTB] the
    truncating quotient by 2^40, and the memory limit twice that. The
    clamp "below 2 becomes 1" only ever changes 0 and negative values. *)
Theorem IPFSContainerResources_memory_max (s : Z) :
  Int64.in_range s ->
  mem_request s = Some (mkQuantity (Z.max 1 (Z.quot s Tebibyte)) Giga) /\
  mem_limit s = Some (mkQuantity (2 * Z.max 1 (Z.quot s Tebibyte)) Giga).
Proof.
  intros Hs. destruct (IPFSContainerResources_components s Hs) as (_ & _ & H3 & H4).
  assert (Hm : (if Z.ltb (Z.quot s Tebibyte) 2 then 1 else Z.quot s Tebibyte)
               = Z.max 1 (Z.quot s Tebibyte))
    by (destruct (Z.ltb_spec (Z.quot s Tebibyte) 2); lia).
  rewrite Hm in H3, H4. split; assumption.
Qed.

Lemma IPFSContainerResources_memory_max_witness :
  Int64.in_range (5 * 2 ^ 40) /\
  (mem_request (5 * 2 ^ 40) = Some (mkQuantity (Z.max 1 (Z.quot (5 * 2 ^ 40) Tebibyte)) Giga) /\
   mem_limit (5 * 2 ^ 40) = Some (mkQuantity (2 * Z.max 1 (Z.quot (5 * 2 ^ 40) Tebibyte)) Giga)).
Proof.
  assert (H : Int64.in_range (5 * 2 ^ 40))
    by (unfold Int64.in_range, Int64.min_signed, Int64.max_signed; lia).
  split; [exact H | apply IPFSContainerResources_memory_max; exact H].
Defined.

(** For every int64 input the CPU request is [250 + 500 * storageTB]
    millicores (truncating quotient, no wrap-around) and the limit twice
    that; the request is at least 250 millicores exactly when the input is
    above -2^40. *)
Theorem IPFSContainerResources_cpu_all_inputs (s : Z) :
  Int64.in_range s ->
  cpu_request s = Some (mkQuantity (250 + 500 * Z.quot s Tebibyte) Milli) /\
  cpu_limit s = Some (mkQuantity (2 * (250 + 500 * Z.quot s Tebibyte)) Milli) /\
  (250 <= 250 + 500 * Z.quot s Tebibyte <-> - 2 ^ 40 < s).
Proof.
  intros Hs. destruct (IPFSContainerResources_components s Hs) as (H1 & H2 & _ & _).
  split; [exact H1|]. split; [exact H2|].
  unfold Tebibyte.
  pose proof (Z.quot_rem' s (2 ^ 40)) as Hqr.
  pose proof (Z.rem_bound_abs s (2 ^ 40) ltac:(lia)) as Hr.
  destruct (Z.le_gt_cases 0 s) as [Hpos | Hneg].
  - pose proof (Z.rem_nonneg s (2 ^ 40) ltac:(lia) Hpos). simpl in *. lia.
  - pose proof (Z.rem_nonpos s (2 ^ 40) ltac:(lia) ltac:(lia)). simpl in *. lia.
Qed.

Lemma IPFSContainerResources_cpu_all_inputs_witness :
  Int64.in_range (- 2 ^ 40) /\
  (cpu_request (- 2 ^ 40) = Some (mkQuantity (250 + 500 * Z.quot (- 2 ^ 40) Tebibyte) Milli) /\
   cpu_limit (- 2 ^ 40) = Some (mkQuantity (2 * (250 + 500 * Z.quot (- 2 ^ 40) Tebibyte)) Milli) /\
   (250 <= 250 + 500 * Z.quot (- 2 ^ 40) Tebibyte <-> - 2 ^ 40 < - 2 ^ 40)).
Proof.
  assert (H : Int64.in_range (- 2 ^ 40))
    by (unfold Int64.in_range, Int64.min_signed, Int64.max_signed; lia).
  split; [exact H | apply IPFSContainerResources_cpu_all_inputs; exact H].
Defined.

(* ------------------------------------------------------------------ *)
(** ** Cluster effects and log records of the tracked-object loop *)

Section LoopCluster.

Context {Mut Val : Type}.
Context (GetName GetKind : nat -> string).
Context (CreateOrPatch : nat -> Mut -> Val -> OperationResult * option goerror * Val).

Local Abbreviation body := (loop_body GetName GetKind CreateOrPatch).

Lemma loop_body_cluster_self (s : LoopState) (obj : nat) (mut : Mut) :
  cluster (body s (obj, mut)) obj = (CreateOrPatch obj mut (cluster s obj)).2.
Proof.
  unfold loop_body.
  destruct (CreateOrPatch obj mut (cluster s obj)) as [[result err] v].
  destruct err; simpl; rewrite decide_True by reflexivity; reflexivity.
Qed.

Lemma fold_cluster_notin (l : list (nat * Mut)) (s : LoopState) (o : nat) :
  o ∉ l.*1 -> cluster (fold_left body l s) o = cluster s o.
Proof.
  revert s. induction l as [|[x mx] l IH]; intros s Hn; [reflexivity|].
  cbn [fold_left]. rewrite IH.
  - apply loop_body_cluster_other. intros ->. apply Hn.
    rewrite fmap_cons. apply elem_of_cons. left. reflexivity.
  - intros Hin. apply Hn. rewrite fmap_cons. apply elem_of_cons. right. exact Hin.
Qed.

Lemma fold_cluster_in (l : list (nat * Mut)) (s : LoopState) (o : nat) (mu : Mut) :
  NoDup l.*1 -> (o, mu) ∈ l ->
  cluster (fold_left body l s) o = (CreateOrPatch o mu (cluster s o)).2.
Proof.
  revert s. induction l as [|[x mx] l IH]; intros s Hnd Hin.
  - apply elem_of_nil in Hin. contradiction.
  - cbn [fmap list_fmap fst] in Hnd. apply NoDup_cons in Hnd as [Hx Hnd].
    cbn [fold_left]. apply elem_of_cons in Hin as [Heq | Hin].
    + injection Heq as -> ->. rewrite fold_cluster_notin by exact Hx.
      apply loop_body_cluster_self.
    + assert (Hne : o <> x).
      { intros ->. apply Hx. apply list_elem_of_fmap. exists (x, mu). split; [reflexivity | exact Hin]. }
      rewrite (IH _ Hnd Hin). rewrite loop_body_cluster_other by exact Hne. reflexivity.
Qed.

End LoopCluster.

(** Whatever the iteration order, after [CreateOrPatchTrackedObjects]
    the cluster entry of each tracked object is the state its own
    [CreateOrPatch] call left, computed from the entry it had before the
    loop; entries of objects not in the map are untouched. *)
Theorem CreateOrPatchTrackedObjects_cluster_effect {Mut Val : Type}
    (GetName GetKind : nat -> string)
    (CreateOrPatch : nat -> Mut -> Val -> OperationResult * option goerror * Val)
    (trackedObjects : gmap nat Mut) (c0 : nat -> Val) (order : list (nat * Mut)) (o : nat) :
  range_order trackedObjects order ->
  cluster (run_loop GetName GetKind CreateOrPatch order c0) o =
    match trackedObjects !! o with
    | Some mu => (CreateOrPatch o mu (c0 o)).2
    | None => c0 o
    end.
Proof.
  intros Hr. pose proof (range_order_NoDup _ _ Hr) as Hnd. unfold run_loop.
  destruct (trackedObjects !! o) as [mu|] eqn:Hl.
  - refine (fold_cluster_in GetName GetKind CreateOrPatch _
      (mkLoopState false c0 [] []) o mu Hnd _).
    unfold range_order in Hr. rewrite Hr. apply elem_of_map_to_list. exact Hl.
  - apply (fold_cluster_notin GetName GetKind CreateOrPatch). intros Hin.
    apply list_elem_of_fmap in Hin as [[x mx] [Hx Hin]]. cbn [fst] in Hx. subst x.
    unfold range_order in Hr. rewrite Hr in Hin. apply elem_of_map_to_list in Hin.
    congruence.
Qed.

Lemma CreateOrPatchTrackedObjects_cluster_effect_witness :
  let backend := fun (o : nat) (mu : nat) (v : nat) =>
    if Nat.eqb o 2 then (OperationResultNone, Some (ErrString "conflict"), 99%nat)
    else (OperationResultUpdated, None, (mu + v)%nat) in
  let c0 := fun (o : nat) => (10 * o)%nat in
  let m : gmap nat nat := <[1%nat := 7%nat]> (<[2%nat := 8%nat]> ∅) in
  let o1 := [(1%nat, 7%nat); (2%nat, 8%nat)] in
  let o2 := [(2%nat, 8%nat); (1%nat, 7%nat)] in
  let run := fun order => run_loop (fun _ => "obj") (fun _ => "ConfigMap") backend order c0 in
  range_order m o1 /\ range_order m o2 /\
  (forall order, order = o1 \/ order = o2 ->
   forall o, o ∈ [1%nat; 2%nat; 3%nat] ->
     cluster (run order) o =
       match m !! o with
       | Some mu => (backend o mu (c0 o)).2
       | None => c0 o
       end) /\
  (* both orders: object 1 patched from 10 to 7 + 10, object 2 left at
     the failing call's 99, the untracked object 3 still at 30 *)
  map (cluster (run o1)) [1%nat; 2%nat; 3%nat] = [17%nat; 99%nat; 30%nat] /\
  map (cluster (run o2)) [1%nat; 2%nat; 3%nat] = [17%nat; 99%nat; 30%nat].
Proof.
  intros backend c0 m o1 o2 run.
  assert (Hm : map_to_list m ≡ₚ [(1%nat, 7%nat); (2%nat, 8%nat)]).
  { unfold m. rewrite map_to_list_insert by (simplify_map_eq; reflexivity).
    rewrite map_to_list_insert by (simplify_map_eq; reflexivity).
    rewrite map_to_list_empty. reflexivity. }
  assert (H1 : range_order m o1) by (unfold range_order, o1; rewrite Hm; reflexivity).
  assert (H2 : range_order m o2) by (unfold range_order, o2; rewrite Hm; apply perm_swap).
  split; [exact H1|]. split; [exact H2|]. split.
  - intros order Ho o _.
    assert (Hr : range_order m order) by (destruct Ho as [-> | ->]; assumption).
    exact (CreateOrPatchTrackedObjects_cluster_effect (fun _ => "obj") (fun _ => "ConfigMap")
             backend m c0 order o Hr).
  - split; vm_compute; reflexivity.
Defined.

(** [CreateOrPatchTrackedObjects] writes exactly one log record per
    tracked object: up to reordering, the records are, entry by entry of
    the map, the record of that object's own [CreateOrPatch] call (an
    error record carrying the call's error when it failed, an info record
    otherwise). It returns true exactly when one of them is an error
    record. *)
Theorem CreateOrPatchTrackedObjects_logs {Mut Val : Type}
    (GetName GetKind : nat -> string)
    (CreateOrPatch : nat -> Mut -> Val -> OperationResult * option goerror * Val)
    (trackedObjects : gmap nat Mut) (c0 : nat -> Val) (order : list (nat * Mut)) :
  range_order trackedObjects order ->
  let final := run_loop GetName GetKind CreateOrPatch order c0 in
  logs final ≡ₚ map (fun e => log_of GetName GetKind (call_of CreateOrPatch c0 e))
                    (map_to_list trackedObjects) /\
  CreateOrPatchTrackedObjects_along GetName GetKind CreateOrPatch order c0
    = existsb is_error_log (logs final).
Proof.
  intros Hr final. subst final.
  destruct (run_inv GetName GetKind CreateOrPatch order c0) as [Hq Hl].
  unfold CreateOrPatchTrackedObjects_along. rewrite Hl, Hq.
  rewrite (run_calls GetName GetKind CreateOrPatch trackedObjects order c0 Hr). split.
  - rewrite map_map. apply Permutation_map. exact Hr.
  - generalize (map (call_of CreateOrPatch c0) order) as l. intros l.
    induction l as [|c l IH]; [reflexivity|]. cbn [map existsb]. rewrite IH.
    unfold log_of, has_err. destruct (call_err c); reflexivity.
Qed.

Lemma CreateOrPatchTrackedObjects_logs_witness :
  let backend := fun (o : nat) (_ : unit) (_ : unit) =>
    if Nat.eqb o 2 then (OperationResultNone, Some (ErrString "conflict"), tt)
    else (OperationResultCreated, None, tt) in
  let m : gmap nat unit := <[1%nat := tt]> (<[2%nat := tt]> ∅) in
  let order := [(2%nat, tt); (1%nat, tt)] in
  let name := fun o => if Nat.eqb o 1 then "ipfs-a" else "ipfs-b" in
  let final := run_loop name (fun _ => "Pod") backend order (fun _ => tt) in
  range_order m order /\
  (logs final ≡ₚ map (fun e => log_of name (fun _ => "Pod") (call_of backend (fun _ => tt) e))
                   (map_to_list m) /\
   CreateOrPatchTrackedObjects_along name (fun _ => "Pod") backend order (fun _ => tt)
     = existsb is_error_log (logs final)) /\
  logs final = [LogError (ErrString "conflict") "ipfs-b" "Pod" OperationResultNone;
                LogInfo "ipfs-a" "Pod" OperationResultCreated] /\
  CreateOrPatchTrackedObjects_along name (fun _ => "Pod") backend order (fun _ => tt) = true.
Proof.
  intros backend m order name final.
  assert (H : range_order m order).
  { unfold range_order, m, order.
    rewrite map_to_list_insert by (simplify_map_eq; reflexivity).
    rewrite map_to_list_insert by (simplify_map_eq; reflexivity).
    rewrite map_to_list_empty. apply perm_swap. }
  split; [exact H|]. split.
  - exact (CreateOrPatchTrackedObjects_logs name (fun _ => "Pod") backend m (fun _ => tt) order H).
  - split; vm_compute; reflexivity.
Defined.

(* ------------------------------------------------------------------ *)
(** ** [NewSwarmKey] and [NewClusterSecret] on the same source state *)

(** Run on the same state of the random source, [NewSwarmKey] and
    [NewClusterSecret] fail or succeed together, with the same error and
    the same state of the source afterwards. On success the third line of
    the swarm key is exactly the cluster secret; on failure both strings
    are empty. *)
Theorem NewSwarmKey_NewClusterSecret_same_source (src : RandSource) :
  let '(secret, err1, src1) := NewClusterSecret src in
  let '(key, err2, src2) := NewSwarmKey src in
  err1 = err2 /\ src1 = src2 /\
  match err1 with
  | None => lines key = [swarmPrefix; multiBase; secret]
  | Some _ => key = EmptyString /\ secret = EmptyString
  end.
Proof.
  destruct (replies src (reads src)) as [fill|e] eqn:Hr.
  - unfold NewClusterSecret, NewSwarmKey. rewrite (randomKey_ok src 32 fill Hr).
    split; [reflexivity|]. split; [reflexivity|].
    unfold Sprintf_3lines, swarmPrefix, multiBase.
    rewrite lines_app_newline by reflexivity. rewrite lines_app_newline by reflexivity.
    rewrite lines_no_newline by (apply all_lower_hex_no_newline, EncodeToString_lower_hex).
    reflexivity.
  - unfold NewClusterSecret, NewSwarmKey. rewrite (randomKey_err src 32 e Hr).
    repeat split.
Qed.

(* ------------------------------------------------------------------ *)
(** ** Monotonicity of [IPFSContainerResources] over all of int64 *)

(** Every component of [IPFSContainerResources] is non-decreasing in the
    storage size over the whole int64 range, negative sizes included:
    truncating division, the memory clamp and the CPU formula are all
    monotone, and none of them wraps around. *)
Theorem IPFSContainerResources_monotone_int64 (s1 s2 : Z) :
  Int64.in_range s1 -> Int64.in_range s2 -> s1 <= s2 ->
  opt_qty_le (cpu_request s1) (cpu_request s2) /\
  opt_qty_le (cpu_limit s1) (cpu_limit s2) /\
  opt_qty_le (mem_request s1) (mem_request s2) /\
  opt_qty_le (mem_limit s1) (mem_limit s2).
Proof.
  intros R1 R2 Hle.
  destruct (IPFSContainerResources_components s1 R1) as (A1 & A2 & A3 & A4).
  destruct (IPFSContainerResources_components s2 R2) as (B1 & B2 & B3 & B4).
  rewrite A1, A2, A3, A4, B1, B2, B3, B4. cbn [opt_qty_le].
  assert (Hd : Z.quot s1 Tebibyte <= Z.quot s2 Tebibyte)
    by (apply Z.quot_le_mono; [unfold Tebibyte; lia | exact Hle]).
  set (t1 := Z.quot s1 Tebibyte) in *. set (t2 := Z.quot s2 Tebibyte) in *.
  assert (Hram : (if Z.ltb t1 2 then 1 else t1) <= (if Z.ltb t2 2 then 1 else t2))
    by (destruct (Z.ltb_spec t1 2), (Z.ltb_spec t2 2); lia).
  repeat split; apply qty_le_same_scale; lia.
Qed.

Lemma IPFSContainerResources_monotone_int64_witness :
  (Int64.in_range (- 2 ^ 41) /\ Int64.in_range (3 * 2 ^ 40) /\ - 2 ^ 41 <= 3 * 2 ^ 40) /\
  (opt_qty_le (cpu_request (- 2 ^ 41)) (cpu_request (3 * 2 ^ 40)) /\
   opt_qty_le (cpu_limit (- 2 ^ 41)) (cpu_limit (3 * 2 ^ 40)) /\
   opt_qty_le (mem_request (- 2 ^ 41)) (mem_request (3 * 2 ^ 40)) /\
   opt_qty_le (mem_limit (- 2 ^ 41)) (mem_limit (3 * 2 ^ 40))).
Proof.
  assert (H1 : Int64.in_range (- 2 ^ 41))
    by (unfold Int64.in_range, Int64.min_signed, Int64.max_signed; lia).
  assert (H2 : Int64.in_range (3 * 2 ^ 40))
    by (unfold Int64.in_range, Int64.min_signed, Int64.max_signed; lia).
  assert (H3 : - 2 ^ 41 <= 3 * 2 ^ 40) by lia.
  split; [split; [exact H1 | split; [exact H2 | exact H3]]|].
  exact (IPFSContainerResources_monotone_int64 _ _ H1 H2 H3).
Defined.
